(** * Project PEAK: relay protocol, packet codec and dashboard counters

    Shallow embedding of
    - the packet creation and packet handling code of
      [3-Feb-Demo/README.md], section 8.C (Python);
    - the [updateSignalStats] function of the static dashboard
      ([api/static/app.js] and its sibling revision);
    - the [SignalStats] component of
      [WEB-VIEW/src/components/SignalStats.tsx];
    - the signal list, the event handlers and the polling of the static
      dashboard, the per-type counts of its chart, and the type filter of
      the React application.

    The packet codec and the controller ingest are not part of the
    sources; where a statement needs them they are modelled from the
    specification and marked as such. *)

From Stdlib Require Import ZArith List String DecimalString Lia Bool.
From Stdlib Require Import Permutation Sorted.
From stdpp Require Import base gmap sets.
From stdpp Require Import strings.
Import ListNotations.

(** ** The relay engine ([3-Feb-Demo/README.md], section 8.C) *)

Module Relay.
Local Open Scope Z_scope.

(** "Position Data: latitude, longitude, altitude". *)
Record Position := mkPosition {
  latitude : Z;
  longitude : Z;
  altitude : Z }.

(** The packet dictionary, key by key.  Python integers are unbounded,
    hence [Z]; the byte strings are lists of 8-bit values. *)
Record Packet := mkPacket {
  protocol_version : Z;
  packet_id : Z;
  source_node_id : Z;
  dest_node_id : Z;
  timestamp : Z;
  position_data : Position;
  signal_type : Z;
  signal_strength : Z;
  protocol : Z;
  signal_info_length : Z;
  signal_info : list Z;
  strength_over_time_length : Z;
  strength_over_time : list Z;
  speed_direction : Z;
  packet_life_counter : Z;
  checksum : Z }.

(** In-place updates [packet[key] = v] of the dictionary. *)
Definition set_position_data (p : Packet) (v : Position) : Packet :=
  mkPacket (protocol_version p) (packet_id p) (source_node_id p)
    (dest_node_id p) (timestamp p) v (signal_type p) (signal_strength p)
    (protocol p) (signal_info_length p) (signal_info p)
    (strength_over_time_length p) (strength_over_time p) (speed_direction p)
    (packet_life_counter p) (checksum p).

Definition set_signal_strength (p : Packet) (v : Z) : Packet :=
  mkPacket (protocol_version p) (packet_id p) (source_node_id p)
    (dest_node_id p) (timestamp p) (position_data p) (signal_type p) v
    (protocol p) (signal_info_length p) (signal_info p)
    (strength_over_time_length p) (strength_over_time p) (speed_direction p)
    (packet_life_counter p) (checksum p).

Definition set_packet_life_counter (p : Packet) (v : Z) : Packet :=
  mkPacket (protocol_version p) (packet_id p) (source_node_id p)
    (dest_node_id p) (timestamp p) (position_data p) (signal_type p)
    (signal_strength p) (protocol p) (signal_info_length p) (signal_info p)
    (strength_over_time_length p) (strength_over_time p) (speed_direction p)
    v (checksum p).

Definition set_checksum (p : Packet) (v : Z) : Packet :=
  mkPacket (protocol_version p) (packet_id p) (source_node_id p)
    (dest_node_id p) (timestamp p) (position_data p) (signal_type p)
    (signal_strength p) (protocol p) (signal_info_length p) (signal_info p)
    (strength_over_time_length p) (strength_over_time p) (speed_direction p)
    (packet_life_counter p) v.

(** The functions and constants the pseudocode calls but does not define.
    Sensor, clock and identifier calls stand for the value they return
    during the handling of one event; pure helpers are functions.
    [compute_checksum()] is written without arguments in the source: it is
    taken as a function of the packet under construction, read with its
    checksum field at [0].  Packet creation calls [get_rssi_timeseries()]
    twice, once for the length field and once for the series:
    [get_rssi_timeseries] is the first reading and
    [get_rssi_timeseries_again] the second. *)
Record Helpers := mkHelpers {
  NODE_ID : Z;
  generate_id : Z;
  get_gps_time : Z;
  get_compressed_position : Position;
  SIGNAL_TYPE_WIFI : Z;
  encode_signal_type : Z -> Z;
  measure_rssi : Z;
  compress_rssi : Z -> Z;
  PROTOCOL_80211N : Z;
  encode_protocol : Z -> Z;
  compress_signal_info : Z -> Z -> list Z;
  get_rssi_timeseries : list Z;
  get_rssi_timeseries_again : list Z;
  compress_rssi_timeseries : list Z -> list Z;
  calculate_speed_direction : Z;
  encode_speed_direction : Z -> Z;
  compute_checksum : Packet -> Z;
  signal_matches : list Z -> bool;
  update_compressed_position : Position }.

(** What a node has put on the air and what it has handed to the
    controller, oldest first.  [broadcast_packet] and [send_to_controller]
    are the two output calls of the pseudocode. *)
Record Radio := mkRadio {
  broadcasts : list Packet;
  controller_inbox : list Packet }.

Definition quiet : Radio := mkRadio [] [].

Definition broadcast_packet (packet : Packet) (r : Radio) : Radio :=
  mkRadio (broadcasts r ++ [packet]) (controller_inbox r).

Definition send_to_controller (packet : Packet) (r : Radio) : Radio :=
  mkRadio (broadcasts r) (controller_inbox r ++ [packet]).

(** Section 8.C.1, the dictionary literal. *)
Definition create_packet (h : Helpers) : Packet :=
  let unsigned :=
    mkPacket 1 (generate_id h) (NODE_ID h) 0xFFFF (get_gps_time h)
      (get_compressed_position h)
      (encode_signal_type h (SIGNAL_TYPE_WIFI h))
      (compress_rssi h (measure_rssi h))
      (encode_protocol h (PROTOCOL_80211N h))
      (Z.of_nat (length (compress_signal_info h 2412 1)))
      (compress_signal_info h 2412 1)
      (Z.of_nat (length (compress_rssi_timeseries h (get_rssi_timeseries h))))
      (compress_rssi_timeseries h (get_rssi_timeseries_again h))
      (encode_speed_direction h (calculate_speed_direction h))
      5
      0 in
  set_checksum unsigned (compute_checksum h unsigned).

(** Section 8.C.1 as a whole: build the packet, then [broadcast_packet]. *)
Definition detect (h : Helpers) (r : Radio) : Radio :=
  broadcast_packet (create_packet h) r.

(** Section 8.C.2, [update_and_forward_packet]. *)
Definition update_and_forward_packet (h : Helpers) (packet : Packet)
    (r : Radio) : Radio :=
  let packet :=
    if signal_matches h (signal_info packet) then
      let packet := set_position_data packet (update_compressed_position h) in
      set_signal_strength packet
        (Z.max (signal_strength packet) (compress_rssi h (measure_rssi h)))
    else packet in
  broadcast_packet packet r.

(** Section 8.C.2, [receive_packet]. *)
Definition receive_packet (h : Helpers) (packet : Packet) (r : Radio) : Radio :=
  let packet :=
    set_packet_life_counter packet (packet_life_counter packet - 1) in
  if 0 <? packet_life_counter packet
  then update_and_forward_packet h packet r
  else send_to_controller packet r.

(** A packet's checksum validates when the field holds what
    [compute_checksum] gives for the rest of the packet. *)
Definition checksum_validates (h : Helpers) (p : Packet) : bool :=
  checksum p =? compute_checksum h (set_checksum p 0).

(** Names for the two packet updates the handlers perform in place: the
    decrement at the head of [receive_packet] and the two assignments under
    the [if] of [update_and_forward_packet]. *)
Definition decrement (packet : Packet) : Packet :=
  set_packet_life_counter packet (packet_life_counter packet - 1).

Definition fuse (h : Helpers) (packet : Packet) : Packet :=
  set_signal_strength (set_position_data packet (update_compressed_position h))
    (Z.max (signal_strength packet) (compress_rssi h (measure_rssi h))).

(** The packet one node re-broadcasts on receiving [packet], if any. *)
Definition hop (h : Helpers) (packet : Packet) : option Packet :=
  head (broadcasts (receive_packet h packet quiet)).

(** The copies of a packet seen on the air along a path of nodes: each
    node receives what the previous one re-broadcast. *)
Fixpoint lineage (path : list Helpers) (packet : Packet) : list Packet :=
  match path with
  | [] => []
  | h :: path' =>
      match hop h packet with
      | Some q => q :: lineage path' q
      | None => []
      end
  end.

End Relay.

(** ** The controller ingest *)

Module Controller.
Import Relay.

(** Modelled from the spec: the controller ingest is not part of the
    sources (only the call [send_to_controller] is).  Section 4.4:
    "Ingest: reject packets whose packet_id was already processed
    (idempotent, dedup by id -- independent of the per-node cache)"; an
    accepted packet is recorded and handed to the Track assignment. *)
Record State := mkState {
  processed : gset Z;
  track_updates : list Packet }.

Definition ingest (p : Packet) (s : State) : State :=
  if decide (packet_id p ∈ processed s) then s
  else mkState ({[ packet_id p ]} ∪ processed s) (track_updates s ++ [p]).

End Controller.

(** ** The packet codec *)

Module Codec.
Import Relay.
Local Open Scope Z_scope.

(** Modelled from the spec: neither [encode] nor [decode] is part of the
    sources.  Section 4.1: "encode(Packet) -> bytes: writes fixed-width
    header fields followed by length-prefixed variable fields, then computes
    and appends a 16-bit checksum over the preceding bytes.  decode(bytes)
    -> Packet: re-parses every field with explicit bounds checks; recomputes
    and compares the checksum.  Fails with ChecksumMismatch, TruncatedPacket,
    or UnsupportedVersion".  Section 6 gives the field order and widths.
    Three things are left open there and are parameters here: how the 128
    position bits are split between latitude, longitude and altitude, the
    width of speed_direction ("16-32"), and the checksum algorithm. *)
Record Layout := mkLayout {
  latitude_bytes : nat;
  longitude_bytes : nat;
  altitude_bytes : nat;
  speed_direction_bytes : nat }.

Definition wire_layout (L : Layout) : Prop :=
  (latitude_bytes L + longitude_bytes L + altitude_bytes L = 16)%nat /\
  (2 <= speed_direction_bytes L <= 4)%nat.

Inductive DecodeError := ChecksumMismatch | TruncatedPacket | UnsupportedVersion.

Inductive result (A : Type) :=
  | Ok (a : A)
  | Err (e : DecodeError).
Arguments Ok {A} a.
Arguments Err {A} e.

(** A parser consumes a prefix of the buffer and returns the rest. *)
Definition Parser (A : Type) := list Z -> result (A * list Z).

Definition ret {A} (a : A) : Parser A := fun buf => Ok (a, buf).

Definition bind {A B} (m : Parser A) (k : A -> Parser B) : Parser B :=
  fun buf =>
    match m buf with
    | Ok (a, rest) => k a rest
    | Err e => Err e
    end.

Definition fail_with {A} (e : DecodeError) : Parser A := fun _ => Err e.

Notation "'let*' x ':=' m 'in' k" := (bind m (fun x => k))
  (at level 10, x name, m at level 100, k at level 200).

(** The supported protocol version, as packet creation writes it. *)
Definition PROTOCOL_VERSION : Z := 1.

(** Unsigned big-endian integer on [w] bytes. *)
Fixpoint put_uint (w : nat) (v : Z) : list Z :=
  match w with
  | O => []
  | S w' => (v / 256 ^ Z.of_nat w') mod 256 :: put_uint w' v
  end.

Definition uint_of (bs : list Z) : Z :=
  fold_left (fun acc b => acc * 256 + b) bs 0.

(** The bounds check: [n] bytes are read only when the buffer has them. *)
Definition take_bytes (n : nat) : Parser (list Z) :=
  fun buf =>
    if (n <=? length buf)%nat then Ok (firstn n buf, skipn n buf)
    else Err TruncatedPacket.

Definition get_uint (w : nat) : Parser Z :=
  let* bs := take_bytes w in ret (uint_of bs).

(** A length-prefixed field: one length byte, then that many bytes. *)
Definition put_prefixed (bs : list Z) : list Z :=
  put_uint 1 (Z.of_nat (length bs)) ++ bs.

Definition get_prefixed : Parser (Z * list Z) :=
  let* n := get_uint 1 in
  let* bs := take_bytes (Z.to_nat n) in
  ret (n, bs).

Definition put_position (L : Layout) (pos : Position) : list Z :=
  put_uint (latitude_bytes L) (latitude pos) ++
  put_uint (longitude_bytes L) (longitude pos) ++
  put_uint (altitude_bytes L) (altitude pos).

Definition get_position (L : Layout) : Parser Position :=
  let* lat := get_uint (latitude_bytes L) in
  let* lon := get_uint (longitude_bytes L) in
  let* alt := get_uint (altitude_bytes L) in
  ret (mkPosition lat lon alt).

(** Everything before the checksum, in the order of section 6. *)
Definition encode_body (L : Layout) (p : Packet) : list Z :=
  put_uint 1 (protocol_version p) ++
  put_uint 4 (packet_id p) ++
  put_uint 2 (source_node_id p) ++
  put_uint 2 (dest_node_id p) ++
  put_uint 8 (timestamp p) ++
  put_position L (position_data p) ++
  put_uint 1 (signal_type p) ++
  put_uint 1 (signal_strength p) ++
  put_uint 1 (protocol p) ++
  put_prefixed (signal_info p) ++
  put_prefixed (strength_over_time p) ++
  put_uint (speed_direction_bytes L) (speed_direction p) ++
  put_uint 1 (packet_life_counter p).

(** The 16 checksum bits of a body under the algorithm [sum]. *)
Definition checksum16 (sum : list Z -> Z) (body : list Z) : Z :=
  sum body mod 2 ^ 16.

Definition encode (L : Layout) (sum : list Z -> Z) (p : Packet) : list Z :=
  let body := encode_body L p in
  body ++ put_uint 2 (checksum16 sum body).

Definition decode_body (L : Layout) : Parser Packet :=
  let* version := get_uint 1 in
  if negb (version =? PROTOCOL_VERSION) then fail_with UnsupportedVersion else
  let* id := get_uint 4 in
  let* src := get_uint 2 in
  let* dst := get_uint 2 in
  let* ts := get_uint 8 in
  let* pos := get_position L in
  let* sty := get_uint 1 in
  let* str := get_uint 1 in
  let* pro := get_uint 1 in
  let* info := get_prefixed in
  let* sot := get_prefixed in
  let* sd := get_uint (speed_direction_bytes L) in
  let* ttl := get_uint 1 in
  ret (mkPacket version id src dst ts pos sty str pro
         (fst info) (snd info) (fst sot) (snd sot) sd ttl 0).

Definition decode (L : Layout) (sum : list Z -> Z) (buf : list Z)
    : result Packet :=
  match decode_body L buf with
  | Err e => Err e
  | Ok (p, rest) =>
      match get_uint 2 rest with
      | Err e => Err e
      | Ok (ck, _) =>
          let body := firstn (length buf - length rest) buf in
          if ck =? checksum16 sum body then Ok (set_checksum p ck)
          else Err ChecksumMismatch
      end
  end.

(** [v] fits an unsigned field of [w] bytes. *)
Definition fits (w : nat) (v : Z) : bool :=
  (0 <=? v) && (v <? 256 ^ Z.of_nat w).

Definition is_byte (b : Z) : bool := fits 1 b.

(** A valid packet: a supported version, every field within its width, the
    length fields equal to the lengths of the byte strings they prefix, and
    a checksum field that validates the payload. *)
Definition valid (L : Layout) (sum : list Z -> Z) (p : Packet) : bool :=
  (protocol_version p =? PROTOCOL_VERSION) &&
  fits 4 (packet_id p) &&
  fits 2 (source_node_id p) &&
  fits 2 (dest_node_id p) &&
  fits 8 (timestamp p) &&
  fits (latitude_bytes L) (latitude (position_data p)) &&
  fits (longitude_bytes L) (longitude (position_data p)) &&
  fits (altitude_bytes L) (altitude (position_data p)) &&
  fits 1 (signal_type p) &&
  fits 1 (signal_strength p) &&
  fits 1 (protocol p) &&
  fits 1 (signal_info_length p) &&
  (signal_info_length p =? Z.of_nat (length (signal_info p))) &&
  forallb is_byte (signal_info p) &&
  fits 1 (strength_over_time_length p) &&
  (strength_over_time_length p =? Z.of_nat (length (strength_over_time p))) &&
  forallb is_byte (strength_over_time p) &&
  fits (speed_direction_bytes L) (speed_direction p) &&
  fits 1 (packet_life_counter p) &&
  (checksum p =? checksum16 sum (encode_body L p)).

End Codec.

(** ** The dashboard *)

Module Dashboard.
Local Open Scope string_scope.

(** One element of the list [/api/data] returns, with the fields the
    dashboard code reads. *)
Record SignalData := mkSignalData {
  timestamp : string;
  type : string;
  name_address : string;
  signal_strength : string }.

(** The [textContent] of the two statistics elements. *)
Record Page := mkPage {
  totalSignalsEl : string;
  lastSignalTimeEl : string }.

(** A number assigned to [textContent] is shown in decimal. *)
Definition show_number (n : nat) : string :=
  NilEmpty.string_of_uint (Nat.to_uint n).

(** [data[i]]: the element at index [i], [undefined] ([None]) outside the
    array. *)
Definition element_at (data : list SignalData) (i : Z) : option SignalData :=
  if (i <? 0)%Z then None else nth_error data (Z.to_nat i).

(** The outcome of one run: the page, unless reading [.timestamp] of
    [undefined] threw a TypeError, and the indices at which the array was
    read. *)
Record Run := mkRun {
  page : option Page;
  reads : list Z }.

(** [api/static/app.js]: [updateSignalStats] over the closure variable
    [signalData]. *)
Module AppJs.

Definition updateSignalStats (signalData : list SignalData) (pg : Page) : Run :=
  let pg := mkPage (show_number (length signalData)) (lastSignalTimeEl pg) in
  if (Z.of_nat (length signalData) >? 0)%Z then
    let i := (Z.of_nat (length signalData) - 1)%Z in
    match element_at signalData i with
    | Some s => mkRun (Some (mkPage (totalSignalsEl pg) (timestamp s))) [i]
    | None => mkRun None [i]
    end
  else mkRun (Some (mkPage (totalSignalsEl pg) "N/A")) [].

End AppJs.

(** The sibling revision: [updateSignalStats(data)], which also keeps the
    count in the closure variable [totalSignals]. *)
Module AppJsData.

Definition updateSignalStats (data : list SignalData)
    (st : nat * Page) : nat * Run :=
  let totalSignals := length data in
  let pg := mkPage (show_number totalSignals) (lastSignalTimeEl (snd st)) in
  if (Z.of_nat totalSignals >? 0)%Z then
    let i := (Z.of_nat (length data) - 1)%Z in
    match element_at data i with
    | Some s =>
        (totalSignals, mkRun (Some (mkPage (totalSignalsEl pg) (timestamp s))) [i])
    | None => (totalSignals, mkRun None [i])
    end
  else (totalSignals, mkRun (Some (mkPage (totalSignalsEl pg) "N/A")) []).

End AppJsData.

(** [WEB-VIEW/src/components/SignalStats.tsx]. *)

(** The values the count expressions range over. *)
Inductive value :=
  | Undefined
  | Number (n : nat).

Definition truthy (v : value) : bool :=
  match v with
  | Undefined => false
  | Number n => negb (n =? 0)%nat
  end.

(** [a || b]. *)
Definition or_else (a b : value) : value := if truthy a then a else b.

(** [signalData?.filter(pred).length]: the optional chain yields
    [undefined] as a whole when [signalData] is [undefined]. *)
Definition filter_length (signalData : option (list SignalData))
    (pred : SignalData -> bool) : value :=
  match signalData with
  | None => Undefined
  | Some l => Number (length (List.filter pred l))
  end.

(** The three numbers the component renders, in the order of its cards. *)
Record Cards := mkCards {
  bluetooth_signals : value;
  wifi_signals : value;
  adsb_signals : value }.

Definition SignalStats (signalData : option (list SignalData)) : Cards :=
  mkCards
    (or_else (filter_length signalData (fun s => String.eqb (type s) "Bluetooth"))
       (Number 0))
    (or_else (filter_length signalData (fun s => String.eqb (type s) "Wi-Fi"))
       (Number 0))
    (or_else (filter_length signalData (fun s => String.eqb (type s) "ADS-B"))
       (Number 0)).

End Dashboard.

(** ** A worked scenario

    Two nodes and a layout, used to evaluate the definitions on concrete
    inputs.  Node A observes the signal at -40 dBm at the origin, node B
    the same signal at -55 dBm further away; RSSI is compressed to an
    unsigned byte by an offset of 128. *)

Module Scenario.
Import Relay.
Local Open Scope Z_scope.

Definition layout : Codec.Layout := Codec.mkLayout 6 6 4 2.

Definition byte_sum (bs : list Z) : Z := fold_right Z.add 0 bs.

Definition body_checksum (p : Packet) : Z :=
  Codec.checksum16 byte_sum (Codec.encode_body layout p).

Definition frequency_and_channel (f c : Z) : list Z :=
  [f / 256; f mod 256; c].

Definition node_A : Helpers :=
  mkHelpers 1 1 0 (mkPosition 0 0 0) 1 (fun t => t) (-40) (fun r => r + 128)
    1 (fun t => t) frequency_and_channel [88] [88] (fun s => s) 0
    (fun v => v)
    body_checksum (fun _ => true) (mkPosition 0 0 0).

Definition node_B : Helpers :=
  mkHelpers 2 7 1 (mkPosition 1000 1000 0) 1 (fun t => t) (-55)
    (fun r => r + 128) 1 (fun t => t) frequency_and_channel [73] [73]
    (fun s => s) 0 (fun v => v) body_checksum (fun _ => true)
    (mkPosition 1000 1000 0).

(** The packet node A emits, and copies of it at other points of its life. *)
Definition emitted : Packet := create_packet node_A.


Definition corrupted : Packet := set_checksum emitted (checksum emitted + 1).

End Scenario.

(** ** The merge as the design describes it

    These two predicates read the description of [merge] in section 4.3 of
    the specification; they are what the fusion code is compared with, not
    part of the code. *)

Module Claimed.
Import Relay.
Local Open Scope Z_scope.

(** [m] is the average of the coordinates [a] and [b] under the weights
    [wa] and [wb], up to rounding to an integer. *)
Definition averages (wa wb a b m : Z) : Prop :=
  Z.abs ((wa + wb) * m - (wa * a + wb * b)) < wa + wb.

(** "position = strength-weighted average (stronger/more-confident
    observation weighted higher)": some non-negative weights, the larger
    one on the stronger observation, average the two positions. *)
Definition strength_weighted_average (sa sb : Z) (pa pb pm : Position) : Prop :=
  exists wa wb : Z,
    0 <= wa /\ 0 <= wb /\ 0 < wa + wb /\
    (sb < sa -> wb < wa) /\ (sa < sb -> wa < wb) /\
    averages wa wb (latitude pa) (latitude pb) (latitude pm) /\
    averages wa wb (longitude pa) (longitude pb) (longitude pm) /\
    averages wa wb (altitude pa) (altitude pb) (altitude pm).

(** "strength_over_time = concatenation in timestamp order": the merged
    series holds the samples of both series, in some order. *)
Definition concatenated_series (sa sb sm : list Z) : Prop :=
  Permutation sm (sa ++ sb).

End Claimed.

(** ** A packet's way through the network *)

Module Flood.
Import Relay.
Local Open Scope Z_scope.

(** One packet handed from node to node along a path: each node runs
    [receive_packet] on what the previous one re-broadcast, on the same
    pair of logs; the run ends at the node that does not re-broadcast. *)
Fixpoint relay_along (path : list Helpers) (packet : Packet) (r : Radio)
    : Radio :=
  match path with
  | [] => r
  | h :: path' =>
      let r' := receive_packet h packet r in
      match hop h packet with
      | Some q => relay_along path' q r'
      | None => r'
      end
  end.

(** A packet with the three keys the handlers assign (position_data,
    signal_strength, packet_life_counter) blanked: what is left is what no
    handler writes. *)
Definition unassigned (p : Packet) : Packet :=
  set_packet_life_counter
    (set_signal_strength (set_position_data p (mkPosition 0 0 0)) 0) 0.

(** The node's own reading, as [update_and_forward_packet] takes it. *)
Definition reading (h : Helpers) : Z := compress_rssi h (measure_rssi h).

(** The nodes of a path whose own observation matches [info]. *)
Definition matching (info : list Z) (path : list Helpers) : list Helpers :=
  List.filter (fun h => signal_matches h info) path.

End Flood.

(** A node that observes some other signal: nothing matches. *)
Module Bystander.
Import Relay.
Local Open Scope Z_scope.

Definition node_C : Helpers :=
  mkHelpers 3 9 2 (mkPosition 500 0 0) 1 (fun t => t) (-70)
    (fun r => r + 128) 1 (fun t => t) Scenario.frequency_and_channel [58]
    [58] (fun s => s) 0 (fun v => v) Scenario.body_checksum (fun _ => false)
    (mkPosition 500 0 0).

(** Node B at a later moment: another clock reading and packet id, the
    same RSSI reading and position. *)
Definition node_B_later : Helpers :=
  mkHelpers 2 8 4 (mkPosition 1000 1000 0) 1 (fun t => t) (-55)
    (fun r => r + 128) 1 (fun t => t) Scenario.frequency_and_channel [73; 73]
    [73; 73] (fun s => s) 0 (fun v => v) Scenario.body_checksum
    (fun _ => true) (mkPosition 1000 1000 0).

(** Node B once its RSSI reading has risen and the node has moved. *)
Definition node_B_moved : Helpers :=
  mkHelpers 2 8 4 (mkPosition 1000 1200 0) 1 (fun t => t) (-30)
    (fun r => r + 128) 1 (fun t => t) Scenario.frequency_and_channel [73; 98]
    [73; 98] (fun s => s) 0 (fun v => v) Scenario.body_checksum
    (fun _ => true) (mkPosition 1000 1200 0).

(** A node whose time series grows by a sample between the two readings
    packet creation takes of it. *)
Definition node_D : Helpers :=
  mkHelpers 4 11 3 (mkPosition 0 700 0) 1 (fun t => t) (-50)
    (fun r => r + 128) 1 (fun t => t) Scenario.frequency_and_channel [78]
    [78; 79] (fun s => s) 0 (fun v => v) Scenario.body_checksum
    (fun _ => true) (mkPosition 0 700 0).

End Bystander.

(** ** The dashboard views and handlers *)

Module View.
Import Dashboard.
Local Open Scope string_scope.

(** The filter predicate every view uses:
    [signal => selectedSignalType === 'all' ||
               signal.type === selectedSignalType]. *)
Definition selected (selectedSignalType : string) (signal : SignalData)
    : bool :=
  String.eqb selectedSignalType "all" ||
  String.eqb (type signal) selectedSignalType.

(** [App.tsx]: [signalData?.filter(...) || []].  An array, even an empty
    one, is truthy, so the right operand is taken only when [signalData] is
    undefined. *)
Definition filteredData (signalData : option (list SignalData))
    (selectedSignalType : string) : list SignalData :=
  match signalData with
  | None => []
  | Some l => List.filter (selected selectedSignalType) l
  end.

(** [api/static/app.js], [updateSignalList]: the [textContent] of the
    [li] elements of the list, first to last.  The list is emptied, then
    one item is appended per selected signal. *)
Definition item_text (signal : SignalData) : string :=
  (timestamp signal ++ " - " ++ type signal ++ " - " ++ name_address signal).

Definition updateSignalList (signalData : list SignalData)
    (selectedSignalType : string) (signalList : list string) : list string :=
  let signalList : list string := [] in
  fold_left (fun items signal => (items ++ [item_text signal])%list)
    (List.filter (selected selectedSignalType) signalData) signalList.

End View.

(** [api/static/app.js]: the page state and its event handlers.  The
    callbacks run one at a time; an event is the moment one of them runs:
    the acknowledgement of a POST, a change of the type selector, the
    arrival of the [/api/data] response, or a [setTimeout] firing.  A
    request for data that fails runs no callback: [DataFailed] only takes
    it off the requests awaited.

    What the handlers do depends on three things the script does not
    decide, and each event carries them.  The response to [/api/data] is
    either a list of signal records or anything else JSON can hold (a
    non-array, an array with a null or ill-typed element): on the latter
    the handlers may throw or show undefined fields, and the run is not
    followed further.  [updateSignalChart] and [updateSignalMap] call
    Chart.js and Leaflet and write to the chart and map objects only, which
    this state leaves out; [drawn] tells whether they returned normally,
    and when they did not the callback ends there, uncaught, with the
    statistics and the list already written and nothing after [updateUI]
    run.  The response to [/api/save] is read as [data.message], which
    throws when it is null. *)
Module Handlers.
Import Dashboard View.
Local Open Scope string_scope.

Record App := mkApp {
  isCollecting : bool;
  signalData : list SignalData;
  selectedSignalType : string;
  stats : Page;
  signalList : list string;
  requests : nat;
  timers : nat }.

Inductive Response :=
  | Signals (data : list SignalData)
  | Other.

Inductive Event :=
  | StartAcked
  | StopAcked
  | ResetAcked (drawn : bool)
  | SaveAcked (null_response : bool)
  | TypeChanged (value : string) (drawn : bool)
  | DataArrived (response : Response) (drawn : bool)
  | DataFailed
  | TimerFired.

(** What running a callback gives: the next state; an uncaught error,
    after which the run is not followed; a response the model does not
    follow; or nothing when the event cannot occur (no response is
    awaited, no timer is set). *)
Inductive Outcome :=
  | Next (a : App)
  | Uncaught
  | NotFollowed
  | NotEnabled.

(** The page as loaded: not collecting, no data, every type selected. *)
Definition loaded (html : Page) (items : list string) : App :=
  mkApp false [] "all" html items 0 0.

Definition updateUI (a : App) (drawn : bool) : Outcome :=
  match page (AppJs.updateSignalStats (signalData a) (stats a)) with
  | None => Uncaught
  | Some pg =>
      if drawn then
        Next (mkApp (isCollecting a) (signalData a) (selectedSignalType a) pg
                (updateSignalList (signalData a) (selectedSignalType a)
                   (signalList a))
                (requests a) (timers a))
      else Uncaught
  end.

(** [fetchData]: returns at once unless collecting, else requests
    [/api/data]. *)
Definition fetchData (a : App) : App :=
  if negb (isCollecting a) then a
  else mkApp (isCollecting a) (signalData a) (selectedSignalType a) (stats a)
         (signalList a) (S (requests a)) (timers a).

Definition step (a : App) (e : Event) : Outcome :=
  match e with
  | StartAcked =>
      Next (fetchData
              (mkApp true (signalData a) (selectedSignalType a) (stats a)
                 (signalList a) (requests a) (timers a)))
  | StopAcked =>
      Next (mkApp false (signalData a) (selectedSignalType a) (stats a)
              (signalList a) (requests a) (timers a))
  | ResetAcked drawn =>
      updateUI (mkApp (isCollecting a) [] (selectedSignalType a) (stats a)
                  (signalList a) (requests a) (timers a)) drawn
  | SaveAcked null_response => if null_response then Uncaught else Next a
  | TypeChanged value drawn =>
      updateUI (mkApp (isCollecting a) (signalData a) value (stats a)
                  (signalList a) (requests a) (timers a)) drawn
  | DataArrived response drawn =>
      match requests a with
      | O => NotEnabled
      | S n =>
          match response with
          | Other => NotFollowed
          | Signals data =>
              match updateUI (mkApp (isCollecting a) data
                                (selectedSignalType a) (stats a)
                                (signalList a) n (timers a)) drawn with
              | Next a' =>
                  Next (mkApp (isCollecting a') (signalData a')
                          (selectedSignalType a') (stats a') (signalList a')
                          (requests a') (S (timers a')))
              | other => other
              end
          end
      end
  | DataFailed =>
      match requests a with
      | O => NotEnabled
      | S n =>
          Next (mkApp (isCollecting a) (signalData a) (selectedSignalType a)
                  (stats a) (signalList a) n (timers a))
      end
  | TimerFired =>
      match timers a with
      | O => NotEnabled
      | S n =>
          Next (fetchData
                  (mkApp (isCollecting a) (signalData a)
                     (selectedSignalType a) (stats a) (signalList a)
                     (requests a) n))
      end
  end.

Fixpoint run (a : App) (events : list Event) : Outcome :=
  match events with
  | [] => Next a
  | e :: events' =>
      match step a e with
      | Next a' => run a' events'
      | other => other
      end
  end.

(** An event on which nothing outside the script goes wrong: the response
    is a list of signal records, the chart and map calls return, the save
    response is not null. *)
Definition calm (e : Event) : bool :=
  match e with
  | ResetAcked drawn => drawn
  | SaveAcked null_response => negb null_response
  | TypeChanged _ drawn => drawn
  | DataArrived (Signals _) drawn => drawn
  | DataArrived Other _ => false
  | _ => true
  end.

(** The polling loops alive: a loop is either awaiting its response or
    waiting for its timer. *)
Definition loops (a : App) : nat := requests a + timers a.

Definition is_start (e : Event) : bool :=
  match e with StartAcked => true | _ => false end.

Definition is_stop (e : Event) : bool :=
  match e with StopAcked => true | _ => false end.

Definition is_data (e : Event) : bool :=
  match e with DataArrived _ _ => true | _ => false end.

Definition is_failure (e : Event) : bool :=
  match e with DataFailed => true | _ => false end.

Definition is_timer (e : Event) : bool :=
  match e with TimerFired => true | _ => false end.

Definition count (f : Event -> bool) (events : list Event) : nat :=
  length (List.filter f events).

(** What the statistics and the list show for the data and type held. *)
Definition shown_stats (a : App) : Page :=
  mkPage (show_number (length (signalData a)))
    match last (signalData a) with
    | None => "N/A"
    | Some s => timestamp s
    end.

Definition shown_items (a : App) : list string :=
  map item_text (List.filter (selected (selectedSignalType a)) (signalData a)).

(** The display agrees with the data and type held, or has not been
    written yet. *)
Definition in_step (html : Page) (items : list string) (a : App) : Prop :=
  (stats a = shown_stats a /\ signalList a = shown_items a) \/
  (stats a = html /\ signalList a = items /\
   signalData a = [] /\ selectedSignalType a = "all").

End Handlers.

(** The sibling revision of the page script: [fetchData] has no guard and
    is called on load, after every acknowledged Start and Reset and on
    every change of the type selector; the response handler sets the next
    timer only while collecting.  [updateSignalList], [updateChart] and
    [updateMap] write to the list element, the chart and the map only,
    which this state leaves out. *)
Module HandlersData.
Import Dashboard.
Local Open Scope string_scope.

Record App := mkApp {
  isCollecting : bool;
  selectedSignalType : string;
  totalSignals : nat;
  stats : Page;
  requests : nat;
  timers : nat }.

Inductive Event :=
  | StartAcked
  | StopAcked
  | ResetAcked
  | SaveAcked
  | TypeChanged (value : string)
  | DataArrived (data : list SignalData)
  | DataFailed
  | TimerFired.

Inductive Outcome :=
  | Next (a : App)
  | Uncaught
  | NotEnabled.

Definition fetchData (a : App) : App :=
  mkApp (isCollecting a) (selectedSignalType a) (totalSignals a) (stats a)
    (S (requests a)) (timers a).

(** The page once its script has run: the first request is out. *)
Definition loaded (html : Page) : App :=
  fetchData (mkApp false "all" 0 html 0 0).

Definition resetUI (a : App) : App :=
  mkApp (isCollecting a) (selectedSignalType a) 0 (mkPage "0" "N/A")
    (requests a) (timers a).

Definition step (a : App) (e : Event) : Outcome :=
  match e with
  | StartAcked =>
      Next (fetchData
              (mkApp true (selectedSignalType a) (totalSignals a) (stats a)
                 (requests a) (timers a)))
  | StopAcked =>
      Next (mkApp false (selectedSignalType a) (totalSignals a) (stats a)
              (requests a) (timers a))
  | ResetAcked => Next (fetchData (resetUI a))
  | SaveAcked => Next a
  | TypeChanged value =>
      Next (fetchData
              (mkApp (isCollecting a) value (totalSignals a) (stats a)
                 (requests a) (timers a)))
  | DataArrived data =>
      match requests a with
      | O => NotEnabled
      | S n =>
          match AppJsData.updateSignalStats data (totalSignals a, stats a) with
          | (total, mkRun (Some pg) _) =>
              Next (mkApp (isCollecting a) (selectedSignalType a) total pg n
                      (if isCollecting a then S (timers a) else timers a))
          | (_, mkRun None _) => Uncaught
          end
      end
  | DataFailed =>
      match requests a with
      | O => NotEnabled
      | S n =>
          Next (mkApp (isCollecting a) (selectedSignalType a) (totalSignals a)
                  (stats a) n (timers a))
      end
  | TimerFired =>
      match timers a with
      | O => NotEnabled
      | S n =>
          Next (fetchData
                  (mkApp (isCollecting a) (selectedSignalType a)
                     (totalSignals a) (stats a) (requests a) n))
      end
  end.

Fixpoint run (a : App) (events : list Event) : Outcome :=
  match events with
  | [] => Next a
  | e :: events' =>
      match step a e with
      | Next a' => run a' events'
      | other => other
      end
  end.

Definition loops (a : App) : nat := requests a + timers a.


Definition is_stop (e : Event) : bool :=
  match e with StopAcked => true | _ => false end.

Definition is_failure (e : Event) : bool :=
  match e with DataFailed => true | _ => false end.

Definition count (f : Event -> bool) (events : list Event) : nat :=
  length (List.filter f events).

End HandlersData.

(** The sibling revision's [updateChart]: the reduction that counts the
    signals per type into an object used as a map,
    [acc[signal.type] = (acc[signal.type] || 0) + 1], starting from [{}].
    [inherited] tells which names the empty object already resolves
    through its prototype (constructor, toString, ...): for such a type
    [acc[type]] is not undefined on first read and the sum is not a
    number; the model stops there and returns [None]. *)
Module Chart.
Import Dashboard.

Definition count_signal (inherited : string -> bool)
    (acc : option (gmap string nat)) (signal : SignalData)
    : option (gmap string nat) :=
  match acc with
  | None => None
  | Some counts =>
      if inherited (type signal) then None
      else Some (<[type signal := S (default 0 (counts !! type signal))]>
                   counts)
  end.

Definition signalCounts (inherited : string -> bool)
    (data : list SignalData) : option (gmap string nat) :=
  fold_left (count_signal inherited) data (Some ∅).

(** A map of counts holds exactly the types counted at least once. *)
Definition holds (counts : gmap string nat) (c : string -> nat) : Prop :=
  forall t, counts !! t = if Nat.eqb (c t) 0 then None else Some (c t).

End Chart.

(** * Properties of the relay engine *)

Section RelayFacts.
Import Relay.
Local Open Scope Z_scope.

Lemma update_and_forward_packet_eq (h : Helpers) (p : Packet) (r : Radio) :
  update_and_forward_packet h p r =
  broadcast_packet (if signal_matches h (signal_info p) then fuse h p else p) r.
Proof. reflexivity. Qed.

(** The two branches of [receive_packet], by the counter on arrival. *)
Lemma receive_packet_forward (h : Helpers) (p : Packet) (r : Radio) :
  1 < packet_life_counter p ->
  receive_packet h p r = update_and_forward_packet h (decrement p) r.
Proof.
  intros Hp. unfold receive_packet. fold (decrement p).
  destruct (Z.ltb_spec 0 (packet_life_counter (decrement p))) as [_ | Hle];
    [reflexivity | cbn in Hle; lia].
Qed.

Lemma receive_packet_deliver (h : Helpers) (p : Packet) (r : Radio) :
  packet_life_counter p <= 1 ->
  receive_packet h p r = send_to_controller (decrement p) r.
Proof.
  intros Hp. unfold receive_packet. fold (decrement p).
  destruct (Z.ltb_spec 0 (packet_life_counter (decrement p))) as [Hlt | _];
    [cbn in Hlt; lia | reflexivity].
Qed.

(** A node keeps no state of its own: what a delivery adds to the two
    output logs does not depend on what they held before. *)
Lemma receive_packet_frame (h : Helpers) (p : Packet) (r : Radio) :
  receive_packet h p r =
  mkRadio (broadcasts r ++ broadcasts (receive_packet h p quiet))
          (controller_inbox r ++ controller_inbox (receive_packet h p quiet)).
Proof.
  destruct (Z.lt_ge_cases 1 (packet_life_counter p)) as [Hp | Hp].
  - rewrite !receive_packet_forward by exact Hp.
    rewrite !update_and_forward_packet_eq. cbn. now rewrite app_nil_r.
  - rewrite !receive_packet_deliver by exact Hp.
    cbn. now rewrite app_nil_r.
Qed.

(** Every delivery hands the packet on exactly once, with the counter one
    lower and the identity and checksum fields as they arrived. *)
Lemma receive_packet_output (h : Helpers) (p : Packet) :
  exists q,
    (receive_packet h p quiet = mkRadio [q] [] \/
     receive_packet h p quiet = mkRadio [] [q]) /\
    packet_life_counter q = packet_life_counter p - 1 /\
    packet_id q = packet_id p /\
    checksum q = checksum p.
Proof.
  destruct (Z.lt_ge_cases 1 (packet_life_counter p)) as [Hp | Hp].
  - rewrite receive_packet_forward, update_and_forward_packet_eq by exact Hp.
    eexists; split; [left; reflexivity |].
    destruct (signal_matches h _); cbn; auto.
  - rewrite receive_packet_deliver by exact Hp.
    eexists; split; [right; reflexivity |]. cbn; auto.
Qed.

(** *** Time to live *)

Lemma hop_some (h : Helpers) (p q : Packet) :
  hop h p = Some q ->
  packet_life_counter q = packet_life_counter p - 1 /\ 0 < packet_life_counter q.
Proof.
  unfold hop. destruct (Z.lt_ge_cases 1 (packet_life_counter p)) as [Hp | Hp].
  - rewrite receive_packet_forward, update_and_forward_packet_eq by exact Hp.
    cbn. intros [= <-]. destruct (signal_matches h _); cbn; lia.
  - rewrite receive_packet_deliver by exact Hp. discriminate.
Qed.

Lemma lineage_counters (path : list Helpers) :
  forall p : Packet,
    Forall (fun q => 0 < packet_life_counter q < packet_life_counter p)
           (lineage path p) /\
    StronglySorted (fun a b => packet_life_counter b < packet_life_counter a)
           (lineage path p).
Proof.
  induction path as [| h path IH]; intros p; cbn.
  - split; constructor.
  - destruct (hop h p) as [q |] eqn:Hq; [| split; constructor].
    apply hop_some in Hq as [Heq Hpos].
    destruct (IH q) as [Hbelow Hsorted]. split.
    + constructor; [lia |].
      eapply List.Forall_impl; [| exact Hbelow]. cbn. intros; lia.
    + constructor; [exact Hsorted |].
      eapply List.Forall_impl; [| exact Hbelow]. cbn. intros; lia.
Qed.

Lemma hop_forward (h : Helpers) (p : Packet) :
  1 < packet_life_counter p ->
  hop h p =
  Some (if signal_matches h (signal_info p) then fuse h (decrement p)
        else decrement p).
Proof.
  intros Hp. unfold hop.
  now rewrite receive_packet_forward, update_and_forward_packet_eq.
Qed.

Lemma hop_deliver (h : Helpers) (p : Packet) :
  packet_life_counter p <= 1 -> hop h p = None.
Proof.
  intros Hp. unfold hop. now rewrite receive_packet_deliver.
Qed.

Lemma lineage_length (path : list Helpers) :
  forall p : Packet,
    length (lineage path p) =
    Nat.min (length path) (Z.to_nat (packet_life_counter p - 1)).
Proof.
  induction path as [| h path IH]; intros p; cbn [lineage length].
  - reflexivity.
  - destruct (Z.lt_ge_cases 1 (packet_life_counter p)) as [Hp | Hp].
    + pose proof (hop_forward h p Hp) as Hhop. rewrite Hhop.
      apply hop_some in Hhop as [Httl _].
      cbn [length]. rewrite IH, Httl. lia.
    + rewrite hop_deliver by exact Hp. cbn [length]. lia.
Qed.

(** C5: a receiving node decrements the ttl and hands the packet on: each
    delivery puts out exactly one packet, with the ttl one less than on
    arrival and so strictly smaller, on the air when the arriving ttl is
    above 1 and to the controller otherwise.  What it re-broadcasts has a
    positive ttl, so an arriving packet with ttl at most 1 -- in particular
    at most 0 -- is not re-broadcast.  Along any path of nodes the packet
    is re-broadcast by every node until its ttl has come down to 1, and
    the ttl of the copies on the air is positive and strictly
    decreasing. *)
Theorem ttl_strictly_decreases_and_expired_is_not_rebroadcast
    (h : Helpers) (p : Packet) (r : Radio) (path : list Helpers) :
  let out := receive_packet h p quiet in
  receive_packet h p r =
    mkRadio (broadcasts r ++ broadcasts out)
            (controller_inbox r ++ controller_inbox out) /\
  (exists q,
     packet_life_counter q = packet_life_counter p - 1 /\
     packet_id q = packet_id p /\
     out = if 1 <? packet_life_counter p then mkRadio [q] []
           else mkRadio [] [q]) /\
  Forall (fun q => packet_life_counter q = packet_life_counter p - 1 /\
                   packet_life_counter q < packet_life_counter p)
         (broadcasts out ++ controller_inbox out) /\
  Forall (fun q => 0 < packet_life_counter q /\ 1 < packet_life_counter p)
         (broadcasts out) /\
  length (lineage path p) =
    Nat.min (length path) (Z.to_nat (packet_life_counter p - 1)) /\
  Forall (fun q => 0 < packet_life_counter q < packet_life_counter p)
         (lineage path p) /\
  StronglySorted (fun a b => packet_life_counter b < packet_life_counter a)
         (lineage path p).
Proof.
  cbv zeta. split; [apply receive_packet_frame |].
  split; [| split; [| split; [| split; [apply lineage_length
                                        | apply lineage_counters]]]].
  - destruct (Z.ltb_spec 1 (packet_life_counter p)) as [Hp | Hp].
    + rewrite receive_packet_forward, update_and_forward_packet_eq by exact Hp.
      eexists; split; [| split; [| reflexivity]];
        destruct (signal_matches h _); reflexivity.
    + rewrite receive_packet_deliver by exact Hp.
      eexists; split; [| split; [| reflexivity]]; reflexivity.
  - destruct (receive_packet_output h p) as (q & [-> | ->] & Hq & _);
      cbn; repeat constructor; lia.
  - destruct (Z.lt_ge_cases 1 (packet_life_counter p)) as [Hp | Hp].
    + rewrite receive_packet_forward, update_and_forward_packet_eq by exact Hp.
      cbn. repeat constructor; [| exact Hp].
      destruct (signal_matches h _); cbn; lia.
    + rewrite receive_packet_deliver by exact Hp. constructor.
Qed.

(** *** Packet creation *)

(** C8: the packet built for a local detection has its life counter at
    TTL_MAX = 5 and its destination at the all-ones broadcast address
    0xFFFF, and handling the detection puts exactly that packet on the air
    (nothing goes to the controller). *)
Theorem detection_packet_has_ttl_max_and_is_broadcast
    (h : Helpers) (r : Radio) :
  packet_life_counter (create_packet h) = 5 /\
  dest_node_id (create_packet h) = Z.ones 16 /\
  dest_node_id (create_packet h) = 0xFFFF /\
  detect h r = mkRadio (broadcasts r ++ [create_packet h]) (controller_inbox r).
Proof. repeat split. Qed.

End RelayFacts.

Section RelayDelivery.
Import Relay.
Local Open Scope Z_scope.

(** *** The final hop *)




(** *** Checksums on receipt *)

(** C2, as stated, fails: node A's packet with its checksum field off by
    one does not validate, yet node B fuses and re-broadcasts it, and with
    one hop left the same packet is handed to the controller. *)
Lemma packet_with_bad_checksum_is_processed :
  checksum_validates Scenario.node_B Scenario.corrupted = false /\
  receive_packet Scenario.node_B Scenario.corrupted quiet =
    mkRadio [fuse Scenario.node_B (decrement Scenario.corrupted)] [] /\
  checksum_validates Scenario.node_B
    (set_packet_life_counter Scenario.corrupted 1) = false /\
  receive_packet Scenario.node_B
    (set_packet_life_counter Scenario.corrupted 1) quiet =
    mkRadio [] [set_packet_life_counter Scenario.corrupted 0].
Proof. repeat split; vm_compute; reflexivity. Qed.

(** C2, amended: the node does not validate the checksum.  A packet whose
    checksum fails to validate is processed like any other: the ttl is
    decremented and the packet is re-broadcast while the ttl stays positive
    (fused first when the signal matches), and handed to the controller
    otherwise; in either case it leaves the node, checksum field
    untouched. *)
Theorem bad_checksum_is_not_checked (h : Helpers) (p : Packet) (r : Radio) :
  checksum_validates h p = false ->
  receive_packet h p r =
    (if 1 <? packet_life_counter p then
       broadcast_packet
         (if signal_matches h (signal_info p) then fuse h (decrement p)
          else decrement p) r
     else send_to_controller (decrement p) r) /\
  receive_packet h p r <> r /\
  Forall (fun q => checksum q = checksum p)
    (broadcasts (receive_packet h p quiet) ++
     controller_inbox (receive_packet h p quiet)).
Proof.
  intros _. split; [| split].
  - destruct (Z.ltb_spec 1 (packet_life_counter p)) as [Hp | Hp].
    + now rewrite receive_packet_forward, update_and_forward_packet_eq.
    + now rewrite receive_packet_deliver.
  - rewrite receive_packet_frame.
    destruct (receive_packet_output h p) as (q & [-> | ->] & _);
      destruct r as [air inbox]; cbn; intros [= Hair Hinbox].
    + apply (f_equal (@length Packet)) in Hair.
      rewrite length_app in Hair; cbn in Hair; lia.
    + apply (f_equal (@length Packet)) in Hinbox.
      rewrite length_app in Hinbox; cbn in Hinbox; lia.
  - destruct (receive_packet_output h p) as (q & [-> | ->] & _ & _ & Hq);
      cbn; repeat constructor; exact Hq.
Qed.

Lemma bad_checksum_is_not_checked_witness :
  checksum_validates Scenario.node_B Scenario.corrupted = false /\
  receive_packet Scenario.node_B Scenario.corrupted quiet <> quiet.
Proof.
  split; [vm_compute; reflexivity |].
  apply (bad_checksum_is_not_checked
           Scenario.node_B Scenario.corrupted quiet).
  vm_compute; reflexivity.
Defined.

End RelayDelivery.

Section RelayFusion.
Import Relay.
Local Open Scope Z_scope.

(** *** Re-delivery *)

(** C3, as stated, fails at the node: node B receives node A's packet
    twice and re-broadcasts it twice. *)
Lemma redelivered_packet_is_forwarded_again :
  let once := receive_packet Scenario.node_B Scenario.emitted quiet in
  let twice := receive_packet Scenario.node_B Scenario.emitted once in
  let q := fuse Scenario.node_B (decrement Scenario.emitted) in
  once = mkRadio [q] [] /\ twice = mkRadio [q; q] [] /\ twice <> once.
Proof.
  cbv zeta. split; [reflexivity |]. split; [reflexivity |].
  vm_compute. discriminate.
Qed.

Lemma ingest_known_id (p : Packet) (s : Controller.State) :
  packet_id p ∈ Controller.processed s -> Controller.ingest p s = s.
Proof.
  intros Hin. unfold Controller.ingest.
  destruct (decide (packet_id p ∈ Controller.processed s)); [reflexivity | contradiction].
Qed.

Lemma ingest_records_id (p : Packet) (s : Controller.State) :
  packet_id p ∈ Controller.processed (Controller.ingest p s).
Proof.
  unfold Controller.ingest.
  destruct (decide (packet_id p ∈ Controller.processed s)) as [Hin | Hout];
    cbn; [exact Hin | set_solver].
Qed.

(** C3, amended: a node keeps no dedup cache.  A packet re-delivered with a
    packet_id the node has already handled is processed again like a first
    delivery and adds one more forward (a re-broadcast or a delivery to the
    controller) to those of the first.  At the controller, as the
    specification describes its ingest, a packet whose packet_id was
    already processed leaves the processed-id table and the Track updates
    as they were after the first delivery. *)
Theorem redelivery_forwards_again_at_node_only
    (h : Helpers) (p p' : Packet) (r : Radio) (s : Controller.State) :
  packet_id p' = packet_id p ->
  let first := receive_packet h p quiet in
  let second := receive_packet h p' quiet in
  receive_packet h p' (receive_packet h p r) =
    mkRadio (broadcasts r ++ broadcasts first ++ broadcasts second)
            (controller_inbox r ++ controller_inbox first ++
             controller_inbox second) /\
  (length (broadcasts second) + length (controller_inbox second) = 1)%nat /\
  Controller.ingest p' (Controller.ingest p s) = Controller.ingest p s.
Proof.
  intros Hid. cbv zeta. split; [| split].
  - rewrite (receive_packet_frame h p' (receive_packet h p r)).
    rewrite (receive_packet_frame h p r). cbn. now rewrite <- !app_assoc.
  - destruct (receive_packet_output h p') as (q & [-> | ->] & _); reflexivity.
  - apply ingest_known_id. rewrite Hid. apply ingest_records_id.
Qed.

Lemma redelivery_forwards_again_at_node_only_witness :
  packet_id Scenario.emitted = packet_id Scenario.emitted /\
  receive_packet Scenario.node_B Scenario.emitted
    (receive_packet Scenario.node_B Scenario.emitted quiet) =
  mkRadio [fuse Scenario.node_B (decrement Scenario.emitted);
           fuse Scenario.node_B (decrement Scenario.emitted)] [].
Proof.
  split; [reflexivity |].
  apply (redelivery_forwards_again_at_node_only
           Scenario.node_B Scenario.emitted Scenario.emitted quiet
           (Controller.mkState ∅ [])).
  reflexivity.
Defined.

(** *** Fusion *)

(** C4, as stated, fails on position and on the time series.  Node B (73,
    at latitude and longitude 1000) fuses node A's packet (88, at the
    origin, series [88]): the merged strength is the maximum 88, but the
    merged position is node B's own -- the weaker observation's, which no
    average weighting the stronger one higher yields -- and the merged
    series is the packet's own, without node B's sample. *)
Lemma fusion_overwrites_position_and_keeps_series :
  let a := decrement Scenario.emitted in
  let b := Scenario.node_B in
  let m := fuse b a in
  signal_matches b (signal_info a) = true /\
  receive_packet b Scenario.emitted quiet = mkRadio [m] [] /\
  signal_strength a = 88 /\ compress_rssi b (measure_rssi b) = 73 /\
  signal_strength m = 88 /\
  position_data a = mkPosition 0 0 0 /\
  position_data m = mkPosition 1000 1000 0 /\
  ~ Claimed.strength_weighted_average
      (signal_strength a) (compress_rssi b (measure_rssi b))
      (position_data a) (update_compressed_position b) (position_data m) /\
  strength_over_time m = [88] /\
  ~ Claimed.concatenated_series
      (strength_over_time a)
      (compress_rssi_timeseries b (get_rssi_timeseries b))
      (strength_over_time m).
Proof.
  cbv zeta. repeat (split; [reflexivity |]). split; [| split; [reflexivity |]].
  - intros (wa & wb & Hwa & Hwb & Hsum & Hstronger & _ & Hlat & _).
    unfold Claimed.averages in Hlat. cbn in Hstronger, Hlat. lia.
  - intros Hperm. apply Permutation_length in Hperm. discriminate Hperm.
Qed.

(** C4, amended: on a match the merged packet has signal_strength equal to
    the maximum of the packet's strength and the node's own reading,
    position equal to the node's own current position (the packet's
    position is overwritten, whatever the strengths), and
    strength_over_time equal to the packet's series, unchanged; the merged
    packet is what is re-broadcast. *)
Theorem fusion_takes_max_strength_and_local_position
    (h : Helpers) (p : Packet) (r : Radio) :
  signal_matches h (signal_info p) = true ->
  update_and_forward_packet h p r = broadcast_packet (fuse h p) r /\
  signal_strength (fuse h p) =
    Z.max (signal_strength p) (compress_rssi h (measure_rssi h)) /\
  position_data (fuse h p) = update_compressed_position h /\
  strength_over_time (fuse h p) = strength_over_time p /\
  strength_over_time_length (fuse h p) = strength_over_time_length p.
Proof.
  intros Hmatch. rewrite update_and_forward_packet_eq, Hmatch.
  repeat split.
Qed.

Lemma fusion_takes_max_strength_and_local_position_witness :
  signal_matches Scenario.node_B
    (signal_info (decrement Scenario.emitted)) = true /\
  position_data (fuse Scenario.node_B (decrement Scenario.emitted)) =
    update_compressed_position Scenario.node_B.
Proof.
  split; [reflexivity |].
  apply (fusion_takes_max_strength_and_local_position
           Scenario.node_B (decrement Scenario.emitted) quiet).
  reflexivity.
Defined.

(** *** Checksums after fusion *)

(** C6 does not hold of the handlers: [update_and_forward_packet] assigns
    position and strength and re-sends without touching the checksum.
    Node A's packet validates when emitted; the packet node B re-broadcasts
    after fusing carries the same checksum field over a changed payload and
    no longer validates -- and would not even with the ttl left as it was,
    by the fused position alone. *)
Theorem fused_packet_is_resent_with_stale_checksum :
  let a := Scenario.emitted in
  let m := fuse Scenario.node_B (decrement a) in
  checksum_validates Scenario.node_A a = true /\
  receive_packet Scenario.node_B a quiet = mkRadio [m] [] /\
  position_data m <> position_data a /\
  checksum m = checksum a /\
  checksum_validates Scenario.node_B m = false /\
  checksum_validates Scenario.node_B (fuse Scenario.node_B a) = false.
Proof.
  cbv zeta. split; [vm_compute; reflexivity |]. split; [reflexivity |].
  split; [vm_compute; discriminate |]. split; [reflexivity |].
  split; vm_compute; reflexivity.
Qed.

End RelayFusion.

(** * Properties of the packet codec *)

Section CodecFacts.
Import Relay Codec.
Local Open Scope Z_scope.

Lemma put_uint_length (w : nat) (v : Z) : length (put_uint w v) = w.
Proof. induction w as [| w IH]; cbn; [reflexivity | now rewrite IH]. Qed.

(** Reading the [w] bytes written for [v] on top of an accumulator. *)
Lemma uint_of_put_uint_acc (w : nat) (v acc : Z) :
  fold_left (fun a b => a * 256 + b) (put_uint w v) acc =
  acc * 256 ^ Z.of_nat w + v mod 256 ^ Z.of_nat w.
Proof.
  revert acc. induction w as [| w IH]; intros acc.
  - cbn. rewrite Z.mod_1_r. lia.
  - cbn [put_uint fold_left]. rewrite IH.
    rewrite Nat2Z.inj_succ, Z.pow_succ_r by lia.
    rewrite (Z.mul_comm 256 (256 ^ Z.of_nat w)).
    rewrite (Z.rem_mul_r v (256 ^ Z.of_nat w) 256) by lia.
    ring.
Qed.

Lemma fits_spec (w : nat) (v : Z) :
  fits w v = true <-> 0 <= v < 256 ^ Z.of_nat w.
Proof. unfold fits. rewrite andb_true_iff, Z.leb_le, Z.ltb_lt. tauto. Qed.

Lemma uint_of_put_uint (w : nat) (v : Z) :
  fits w v = true -> uint_of (put_uint w v) = v.
Proof.
  intros Hv%fits_spec. unfold uint_of. rewrite uint_of_put_uint_acc.
  rewrite Z.mod_small by exact Hv. lia.
Qed.

Lemma take_bytes_app (n : nat) (bs rest : list Z) :
  length bs = n -> take_bytes n (bs ++ rest) = Ok (bs, rest).
Proof.
  intros <-. unfold take_bytes.
  destruct (Nat.leb_spec (length bs) (length (bs ++ rest))) as [_ | Hlt].
  - now rewrite take_app_length, drop_app_length.
  - rewrite length_app in Hlt. lia.
Qed.

Lemma get_uint_put_uint (w : nat) (v : Z) (rest : list Z) :
  fits w v = true -> get_uint w (put_uint w v ++ rest) = Ok (v, rest).
Proof.
  intros Hv. unfold get_uint, bind, ret.
  rewrite take_bytes_app by apply put_uint_length.
  now rewrite uint_of_put_uint.
Qed.

(** One parsing step over a buffer that starts with the matching field. *)
Lemma bind_get_uint {B} (w : nat) (v : Z) (rest : list Z) (k : Z -> Parser B) :
  fits w v = true ->
  bind (get_uint w) k (put_uint w v ++ rest) = k v rest.
Proof.
  intros Hv. unfold bind at 1. now rewrite get_uint_put_uint.
Qed.

Lemma bind_get_prefixed {B} (bs rest : list Z) (k : Z * list Z -> Parser B) :
  fits 1 (Z.of_nat (length bs)) = true ->
  bind get_prefixed k (put_prefixed bs ++ rest) =
  k (Z.of_nat (length bs), bs) rest.
Proof.
  intros Hlen. unfold get_prefixed, put_prefixed. rewrite <- app_assoc.
  unfold bind at 1. rewrite bind_get_uint by exact Hlen.
  unfold bind, ret. rewrite take_bytes_app by now rewrite Nat2Z.id.
  reflexivity.
Qed.

Lemma bind_get_position {B} (L : Layout) (pos : Position) (rest : list Z)
    (k : Position -> Parser B) :
  fits (latitude_bytes L) (latitude pos) = true ->
  fits (longitude_bytes L) (longitude pos) = true ->
  fits (altitude_bytes L) (altitude pos) = true ->
  bind (get_position L) k (put_position L pos ++ rest) = k pos rest.
Proof.
  intros Hlat Hlon Halt. unfold get_position, put_position.
  rewrite <- !app_assoc. unfold bind at 1.
  rewrite bind_get_uint by exact Hlat.
  rewrite bind_get_uint by exact Hlon.
  rewrite bind_get_uint by exact Halt. unfold ret. now destruct pos.
Qed.

Lemma checksum16_fits (sum : list Z -> Z) (body : list Z) :
  fits 2 (checksum16 sum body) = true.
Proof.
  apply fits_spec. unfold checksum16.
  change (256 ^ Z.of_nat 2) with (2 ^ 16). apply Z.mod_pos_bound. lia.
Qed.

(** The encoding of a packet under a layout of section 6: 36 header bytes,
    the two prefixed fields, speed_direction, ttl and 2 checksum bytes. *)
Lemma encode_length (L : Layout) (sum : list Z -> Z) (p : Packet) :
  wire_layout L ->
  length (encode L sum p) =
  (36 + (1 + length (signal_info p)) + (1 + length (strength_over_time p)) +
   speed_direction_bytes L + 1 + 2)%nat.
Proof.
  intros [Hpos _]. unfold encode, encode_body, put_prefixed, put_position.
  cbv zeta. rewrite !length_app, !put_uint_length. lia.
Qed.

Ltac split_valid H :=
  unfold valid in H;
  repeat match goal with
         | Hc : (_ && _)%bool = true |- _ =>
             let H1 := fresh "Hv" in
             let H2 := fresh "Hv" in
             apply andb_prop in Hc; destruct Hc as [H1 H2]
         end.

(** Parsing the body written for a valid packet gives the packet back,
    checksum field aside, and leaves what follows the body untouched. *)
Lemma decode_body_encode_body (L : Layout) (sum : list Z -> Z) (p : Packet)
    (rest : list Z) :
  valid L sum p = true ->
  decode_body L (encode_body L p ++ rest) = Ok (set_checksum p 0, rest).
Proof.
  intros Hvalid. split_valid Hvalid.
  destruct p as [ver id src dst ts pos sty str pro ilen info slen sot sd ttl ck].
  cbn [protocol_version packet_id source_node_id dest_node_id timestamp
       position_data signal_type signal_strength protocol signal_info_length
       signal_info strength_over_time_length strength_over_time
       speed_direction packet_life_counter checksum] in *.
  repeat match goal with
         | Heq : (_ =? _) = true |- _ => apply Z.eqb_eq in Heq
         end.
  unfold encode_body, decode_body, set_checksum.
  cbn [protocol_version packet_id source_node_id dest_node_id timestamp
       position_data signal_type signal_strength protocol signal_info_length
       signal_info strength_over_time_length strength_over_time
       speed_direction packet_life_counter checksum].
  rewrite <- !app_assoc. subst ver ilen slen.
  rewrite bind_get_uint by reflexivity.
  change (negb (PROTOCOL_VERSION =? PROTOCOL_VERSION)) with false. cbv iota.
  do 4 (rewrite bind_get_uint by assumption).
  rewrite bind_get_position by assumption.
  do 3 (rewrite bind_get_uint by assumption).
  do 2 (rewrite bind_get_prefixed by assumption).
  do 2 (rewrite bind_get_uint by assumption).
  reflexivity.
Qed.

(** C7: for every valid packet, decoding its encoding returns the packet
    itself, where the encoding is the fixed-width header fields, then the
    length-prefixed variable fields, then the 16 checksum bits computed
    over all the bytes before them. *)
Theorem decode_encode (L : Layout) (sum : list Z -> Z) (p : Packet) :
  valid L sum p = true ->
  decode L sum (encode L sum p) = Ok p /\
  encode L sum p =
    encode_body L p ++ put_uint 2 (checksum16 sum (encode_body L p)).
Proof.
  intros Hvalid. split; [| reflexivity].
  unfold decode, encode. cbv zeta.
  rewrite (decode_body_encode_body L sum p _ Hvalid).
  pose proof (get_uint_put_uint 2 (checksum16 sum (encode_body L p)) []
                (checksum16_fits sum _)) as Hck.
  rewrite app_nil_r in Hck. rewrite Hck.
  rewrite length_app, put_uint_length.
  replace (length (encode_body L p) + 2 - 2)%nat
    with (length (encode_body L p)) by lia.
  rewrite take_app_length, Z.eqb_refl.
  split_valid Hvalid.
  repeat match goal with
         | Heq : (_ =? _) = true |- _ => apply Z.eqb_eq in Heq
         end.
  match goal with
  | Hsum : checksum p = _ |- _ => rewrite <- Hsum
  end.
  now destruct p.
Qed.

Lemma decode_encode_witness :
  valid Scenario.layout Scenario.byte_sum Scenario.emitted = true /\
  decode Scenario.layout Scenario.byte_sum
    (encode Scenario.layout Scenario.byte_sum Scenario.emitted)
  = Ok Scenario.emitted.
Proof.
  split; [vm_compute; reflexivity |].
  apply (decode_encode Scenario.layout Scenario.byte_sum Scenario.emitted).
  vm_compute; reflexivity.
Defined.

End CodecFacts.

(** * Properties of the dashboard *)

Section DashboardFacts.
Import Dashboard.
Local Open Scope string_scope.

(** The index [length - 1] holds the last element of a list. *)
Lemma element_at_length_minus_one (data : list SignalData) :
  data <> [] ->
  element_at data (Z.of_nat (length data) - 1) = last data /\
  (0 <= Z.of_nat (length data) - 1 < Z.of_nat (length data))%Z.
Proof.
  intros Hne. split; [| destruct data; [contradiction | cbn [length]; lia]].
  unfold element_at.
  destruct (Z.ltb_spec (Z.of_nat (length data) - 1) 0) as [Hneg | _].
  - destruct data; [contradiction | cbn [length] in Hneg; lia].
  - replace (Z.to_nat (Z.of_nat (length data) - 1)) with (pred (length data))
      by lia.
    clear Hne. induction data as [| a l IH]; [reflexivity |].
    destruct l as [| b l]; [reflexivity |]. exact IH.
Qed.

(** C9: in both revisions of [updateSignalStats], for every list the
    function returns normally; on the empty list the last-signal-time
    display is the literal N/A and the array is not read; on a non-empty
    list the display is the timestamp of the last element and the array is
    read once, at [length - 1], which is within bounds. *)
Theorem updateSignalStats_last_signal_time
    (data : list SignalData) (pg : Page) (totalSignals : nat) :
  let shown :=
    match last data with
    | None => "N/A"
    | Some s => timestamp s
    end in
  let touched :=
    match data with
    | [] => []
    | _ :: _ => [(Z.of_nat (length data) - 1)%Z]
    end in
  AppJs.updateSignalStats data pg =
    mkRun (Some (mkPage (show_number (length data)) shown)) touched /\
  AppJsData.updateSignalStats data (totalSignals, pg) =
    (length data,
     mkRun (Some (mkPage (show_number (length data)) shown)) touched) /\
  Forall (fun i => (0 <= i < Z.of_nat (length data))%Z) touched.
Proof.
  cbv zeta. destruct data as [| a l]; [repeat split; constructor |].
  assert (a :: l <> []) as Hne by discriminate.
  destruct (element_at_length_minus_one (a :: l) Hne) as [Hlast Hbound].
  unfold AppJs.updateSignalStats, AppJsData.updateSignalStats. cbv zeta.
  cbn [snd]. rewrite Hlast.
  destruct (Z.gtb_spec (Z.of_nat (length (a :: l))) 0) as [_ | Hle];
    [| cbn [length] in Hle; lia].
  destruct (last (a :: l)) as [s |] eqn:Hs.
  - repeat split. repeat constructor; lia.
  - apply last_None in Hs. discriminate Hs.
Qed.

Lemma or_else_number (n : nat) : or_else (Number n) (Number 0) = Number n.
Proof. destruct n; reflexivity. Qed.

Lemma length_filter_type (t : string) (data : list SignalData) :
  length (List.filter (fun s => String.eqb (type s) t) data) =
  count_occ string_dec (map type data) t.
Proof.
  induction data as [| s data IH]; [reflexivity |].
  cbn [List.filter map count_occ].
  destruct (String.eqb_spec (type s) t) as [Heq | Hneq];
    destruct (string_dec (type s) t) as [Heq' | Hneq'];
    try contradiction; cbn [length]; now rewrite IH.
Qed.

(** C10: for every list of signals the three numbers [SignalStats] shows
    are the numbers of elements whose [type] is exactly Bluetooth, Wi-Fi
    and ADS-B, and when the signal data is undefined all three are 0. *)
Theorem SignalStats_counts (data : list SignalData) :
  SignalStats (Some data) =
    mkCards (Number (count_occ string_dec (map type data) "Bluetooth"))
            (Number (count_occ string_dec (map type data) "Wi-Fi"))
            (Number (count_occ string_dec (map type data) "ADS-B")) /\
  SignalStats None = mkCards (Number 0) (Number 0) (Number 0).
Proof.
  split; [| reflexivity].
  unfold SignalStats, filter_length.
  now rewrite !or_else_number, !length_filter_type.
Qed.

End DashboardFacts.

(** * The scenario, evaluated *)

Section ScenarioRuns.
Import Relay.
Local Open Scope Z_scope.

(** Node A emits with ttl 5; node B receives, decrements to 4, fuses to the
    stronger reading and re-broadcasts. *)
Example node_B_fuses_and_forwards :
  map (fun q => (packet_life_counter q, signal_strength q))
      (broadcasts (receive_packet Scenario.node_B Scenario.emitted quiet))
  = [(4, 88)].
Proof. reflexivity. Qed.

(** Along a chain of nodes the copies on the air carry ttl 4, 3, 2 and 1;
    the copy with ttl 1 is still re-broadcast, and the node that decrements
    it to 0 hands it to the controller. *)
Example ttl_along_a_chain :
  map packet_life_counter
      (lineage (repeat Scenario.node_B 6) Scenario.emitted) = [4; 3; 2; 1].
Proof. reflexivity. Qed.

Example decremented_to_one_is_rebroadcast :
  receive_packet Scenario.node_B
    (set_packet_life_counter Scenario.emitted 2) quiet =
  mkRadio [fuse Scenario.node_B (set_packet_life_counter Scenario.emitted 1)] [].
Proof. reflexivity. Qed.

Example encoded_length :
  length (Codec.encode Scenario.layout Scenario.byte_sum Scenario.emitted)
  = 47%nat.
Proof. reflexivity. Qed.

Example truncated_buffer_is_refused :
  Codec.decode Scenario.layout Scenario.byte_sum
    (firstn 20 (Codec.encode Scenario.layout Scenario.byte_sum Scenario.emitted))
  = Codec.Err Codec.TruncatedPacket.
Proof. reflexivity. Qed.

Example changed_byte_is_refused :
  Codec.decode Scenario.layout Scenario.byte_sum
    (<[34%nat := 89]>
       (Codec.encode Scenario.layout Scenario.byte_sum Scenario.emitted))
  = Codec.Err Codec.ChecksumMismatch.
Proof. reflexivity. Qed.

End ScenarioRuns.

Section DashboardRuns.
Import Dashboard.
Local Open Scope string_scope.

Example stats_of_two_signals :
  AppJs.updateSignalStats
    [mkSignalData "10:00" "Wi-Fi" "aa:bb" "-40";
     mkSignalData "10:05" "Bluetooth" "cc:dd" "-60"]
    (mkPage "0" "N/A")
  = mkRun (Some (mkPage "2" "10:05")) [1%Z].
Proof. reflexivity. Qed.

Example stats_of_no_signal :
  AppJs.updateSignalStats [] (mkPage "2" "10:05")
  = mkRun (Some (mkPage "0" "N/A")) [].
Proof. reflexivity. Qed.

Example cards_of_three_signals :
  SignalStats
    (Some [mkSignalData "10:00" "Wi-Fi" "aa:bb" "-40";
           mkSignalData "10:05" "Bluetooth" "cc:dd" "-60";
           mkSignalData "10:06" "wi-fi" "ee:ff" "-70"])
  = mkCards (Number 1) (Number 1) (Number 0).
Proof. reflexivity. Qed.

End DashboardRuns.

(** * A packet's way through the network *)

Section FloodFacts.
Import Relay Flood.
Local Open Scope Z_scope.

Lemma unassigned_decrement (p : Packet) :
  unassigned (decrement p) = unassigned p.
Proof. reflexivity. Qed.

Lemma unassigned_fuse (h : Helpers) (p : Packet) :
  unassigned (fuse h p) = unassigned p.
Proof. reflexivity. Qed.

Lemma hop_unassigned (h : Helpers) (p q : Packet) :
  hop h p = Some q -> unassigned q = unassigned p.
Proof.
  destruct (Z.lt_ge_cases 1 (packet_life_counter p)) as [Hp | Hp].
  - rewrite hop_forward by exact Hp. intros [= <-].
    now destruct (signal_matches h _).
  - rewrite hop_deliver by exact Hp. discriminate.
Qed.

(** What goes on the air during a run is the lineage of the packet. *)
Lemma relay_along_broadcasts (path : list Helpers) :
  forall (p : Packet) (r : Radio),
    broadcasts (relay_along path p r) = broadcasts r ++ lineage path p.
Proof.
  induction path as [| h path IH]; intros p r; cbn [relay_along lineage].
  - now rewrite app_nil_r.
  - destruct (Z.lt_ge_cases 1 (packet_life_counter p)) as [Hp | Hp].
    + rewrite hop_forward by exact Hp. rewrite IH.
      rewrite receive_packet_forward, update_and_forward_packet_eq by exact Hp.
      cbn. now rewrite <- app_assoc.
    + rewrite hop_deliver by exact Hp.
      rewrite receive_packet_deliver by exact Hp. cbn. now rewrite app_nil_r.
Qed.

(** What reaches the controller during a run: at most one packet, with a
    counter that has run out. *)
Lemma relay_along_controller (path : list Helpers) :
  forall (p : Packet) (r : Radio),
    exists delivered,
      controller_inbox (relay_along path p r) =
        controller_inbox r ++ delivered /\
      (length delivered <= 1)%nat /\
      Forall (fun q => unassigned q = unassigned p /\
                       packet_life_counter q <= 0 /\
                       packet_life_counter q < packet_life_counter p)
             delivered.
Proof.
  induction path as [| h path IH]; intros p r; cbn [relay_along].
  - exists []. rewrite app_nil_r. repeat split; [cbn; lia | constructor].
  - destruct (Z.lt_ge_cases 1 (packet_life_counter p)) as [Hp | Hp].
    + pose proof (hop_forward h p Hp) as Hhop. rewrite Hhop.
      pose proof (hop_unassigned h p _ Hhop) as Hsame.
      pose proof (hop_some h p _ Hhop) as [Httl _].
      destruct (IH (if signal_matches h (signal_info p)
                    then fuse h (decrement p) else decrement p)
                   (receive_packet h p r)) as (d & Hd & Hlen & Hall).
      exists d. split; [| split; [exact Hlen |]].
      * rewrite Hd.
        now rewrite receive_packet_forward, update_and_forward_packet_eq.
      * eapply List.Forall_impl; [| exact Hall]. cbn.
        intros q (Hq & Hzero & Hlt). repeat split; [congruence | lia | lia].
    + rewrite hop_deliver by exact Hp.
      rewrite receive_packet_deliver by exact Hp.
      exists [decrement p]. repeat split; [cbn; lia |].
      repeat constructor; cbn; lia.
Qed.

Lemma lineage_unassigned (path : list Helpers) :
  forall p : Packet,
    Forall (fun q => unassigned q = unassigned p) (lineage path p).
Proof.
  induction path as [| h path IH]; intros p; cbn; [constructor |].
  destruct (hop h p) as [q |] eqn:Hq; [| constructor].
  apply hop_unassigned in Hq. constructor; [exact Hq |].
  eapply List.Forall_impl; [| apply IH]. cbn. intros q' Hq'. congruence.
Qed.

(** X1: during the run of a packet along any path of nodes, nothing that
    goes on the air or to the controller differs from the packet as it
    arrived in anything but position_data, signal_strength and
    packet_life_counter: identity, addresses, timestamp, signal info, time
    series and checksum are never written by the relay. *)
Theorem relay_writes_only_position_strength_ttl
    (path : list Helpers) (p : Packet) :
  Forall (fun q =>
            unassigned q = unassigned p /\
            packet_id q = packet_id p /\
            source_node_id q = source_node_id p /\
            dest_node_id q = dest_node_id p /\
            timestamp q = timestamp p /\
            signal_info q = signal_info p /\
            strength_over_time q = strength_over_time p /\
            checksum q = checksum p)
         (broadcasts (relay_along path p quiet) ++
          controller_inbox (relay_along path p quiet)).
Proof.
  pose proof (lineage_unassigned path p) as Hair.
  destruct (relay_along_controller path p quiet) as (d & Hd & _ & Hctl).
  rewrite relay_along_broadcasts, Hd. cbn [quiet broadcasts controller_inbox app].
  apply Forall_app. split.
  - eapply List.Forall_impl; [| exact Hair]. cbn. intros q Hq.
    split; [exact Hq |]. repeat split.
    + exact (f_equal packet_id Hq).
    + exact (f_equal source_node_id Hq).
    + exact (f_equal dest_node_id Hq).
    + exact (f_equal timestamp Hq).
    + exact (f_equal signal_info Hq).
    + exact (f_equal strength_over_time Hq).
    + exact (f_equal checksum Hq).
  - eapply List.Forall_impl; [| exact Hctl]. cbn. intros q (Hq & _).
    split; [exact Hq |]. repeat split.
    + exact (f_equal packet_id Hq).
    + exact (f_equal source_node_id Hq).
    + exact (f_equal dest_node_id Hq).
    + exact (f_equal timestamp Hq).
    + exact (f_equal signal_info Hq).
    + exact (f_equal strength_over_time Hq).
    + exact (f_equal checksum Hq).
Qed.

(** X2: a packet that arrives with a ttl between 1 and the number of nodes
    on its path is re-broadcast ttl - 1 times and then handed to the
    controller, once, with its counter at 0, by the node that is number
    ttl on the path; the nodes after that one do not see it. *)
Theorem packet_reaches_controller_after_ttl_nodes
    (path : list Helpers) (p : Packet) (r : Radio) :
  1 <= packet_life_counter p <= Z.of_nat (length path) ->
  exists q,
    relay_along path p r =
      mkRadio (broadcasts r ++ lineage path p) (controller_inbox r ++ [q]) /\
    packet_life_counter q = 0 /\
    unassigned q = unassigned p /\
    Z.of_nat (length (lineage path p)) = packet_life_counter p - 1.
Proof.
  revert p r. induction path as [| h path IH]; intros p r Hp.
  - cbn [length] in Hp. lia.
  - cbn [relay_along lineage].
    destruct (Z.lt_ge_cases 1 (packet_life_counter p)) as [Hgt | Hle].
    + pose proof (hop_forward h p Hgt) as Hhop. rewrite Hhop.
      pose proof (hop_unassigned h p _ Hhop) as Hsame.
      pose proof (hop_some h p _ Hhop) as [Httl _].
      destruct (IH (if signal_matches h (signal_info p)
                    then fuse h (decrement p) else decrement p)
                   (receive_packet h p r)) as (q & Hrun & Hzero & Hq & Hlen).
      { cbn [length] in Hp. lia. }
      exists q. rewrite Hrun.
      rewrite receive_packet_forward, update_and_forward_packet_eq by exact Hgt.
      cbn [broadcast_packet broadcasts controller_inbox length].
      rewrite <- app_assoc. repeat split; [exact Hzero | congruence | lia].
    + rewrite hop_deliver by exact Hle.
      rewrite receive_packet_deliver by exact Hle.
      exists (decrement p). cbn. rewrite app_nil_r.
      repeat split; lia.
Qed.

Lemma packet_reaches_controller_after_ttl_nodes_witness :
  1 <= packet_life_counter Scenario.emitted
    <= Z.of_nat (length (repeat Scenario.node_B 6)) /\
  exists q,
    relay_along (repeat Scenario.node_B 6) Scenario.emitted quiet =
      mkRadio (lineage (repeat Scenario.node_B 6) Scenario.emitted) [q] /\
    packet_life_counter q = 0 /\
    unassigned q = unassigned Scenario.emitted /\
    Z.of_nat (length (lineage (repeat Scenario.node_B 6) Scenario.emitted))
    = packet_life_counter Scenario.emitted - 1.
Proof.
  split; [cbn; lia |].
  apply (packet_reaches_controller_after_ttl_nodes
           (repeat Scenario.node_B 6) Scenario.emitted quiet).
  cbn; lia.
Defined.

(** X3: on a path with fewer nodes than the packet's ttl every node
    re-broadcasts the packet and the controller receives nothing: the
    packet is still on the air, unacknowledged, when the path ends. *)
Theorem packet_on_short_path_never_reaches_controller
    (path : list Helpers) (p : Packet) (r : Radio) :
  Z.of_nat (length path) < packet_life_counter p ->
  relay_along path p r =
    mkRadio (broadcasts r ++ lineage path p) (controller_inbox r) /\
  length (lineage path p) = length path.
Proof.
  intros Hp. split; [| rewrite lineage_length; lia].
  revert p r Hp. induction path as [| h path IH]; intros p r Hp.
  - cbn. rewrite app_nil_r. now destruct r.
  - cbn [relay_along lineage]. cbn [length] in Hp.
    assert (1 < packet_life_counter p) as Hgt by lia.
    pose proof (hop_forward h p Hgt) as Hhop. rewrite Hhop.
    pose proof (hop_some h p _ Hhop) as [Httl _].
    rewrite IH by lia.
    rewrite receive_packet_forward, update_and_forward_packet_eq by exact Hgt.
    cbn. now rewrite <- app_assoc.
Qed.

Lemma packet_on_short_path_never_reaches_controller_witness :
  Z.of_nat (length (repeat Scenario.node_B 3))
    < packet_life_counter Scenario.emitted /\
  controller_inbox
    (relay_along (repeat Scenario.node_B 3) Scenario.emitted quiet) = [].
Proof.
  split; [cbn; lia |].
  pose proof (packet_on_short_path_never_reaches_controller
                (repeat Scenario.node_B 3) Scenario.emitted quiet) as H.
  rewrite (proj1 (H ltac:(cbn; lia))). reflexivity.
Defined.

Lemma hop_strength (h : Helpers) (p q : Packet) :
  hop h p = Some q ->
  signal_strength q =
    (if signal_matches h (signal_info p)
     then Z.max (signal_strength p) (reading h) else signal_strength p) /\
  position_data q =
    (if signal_matches h (signal_info p)
     then update_compressed_position h else position_data p) /\
  signal_info q = signal_info p.
Proof.
  destruct (Z.lt_ge_cases 1 (packet_life_counter p)) as [Hp | Hp].
  - rewrite hop_forward by exact Hp. intros [= <-].
    now destruct (signal_matches h _).
  - rewrite hop_deliver by exact Hp. discriminate.
Qed.

Lemma lineage_strength_above (path : list Helpers) :
  forall p : Packet,
    Forall (fun q => signal_strength p <= signal_strength q) (lineage path p).
Proof.
  induction path as [| h path IH]; intros p; cbn [lineage]; [constructor |].
  destruct (hop h p) as [q |] eqn:Hq; [| constructor].
  apply hop_strength in Hq as (Hs & _).
  assert (signal_strength p <= signal_strength q) as Hle
    by (rewrite Hs; destruct (signal_matches h _); lia).
  constructor; [exact Hle |].
  eapply List.Forall_impl; [| apply IH]. cbn. intros; lia.
Qed.

(** X4: the signal strength carried by a packet never decreases from hop
    to hop: along any path the copies on the air, from the packet as it
    arrived onwards, carry non-decreasing strengths. *)
Theorem strength_never_decreases_along_path
    (path : list Helpers) (p : Packet) :
  StronglySorted (fun a b => signal_strength a <= signal_strength b)
    (p :: lineage path p).
Proof.
  constructor; [| apply lineage_strength_above].
  revert p. induction path as [| h path IH]; intros p; cbn [lineage].
  - constructor.
  - destruct (hop h p) as [q |]; [| constructor].
    constructor; [apply IH | apply lineage_strength_above].
Qed.

Lemma fold_max_shift (l : list Z) (s r : Z) :
  fold_right Z.max (Z.max s r) l = Z.max r (fold_right Z.max s l).
Proof. induction l as [| a l IH]; cbn; [lia | rewrite IH; lia]. Qed.

(** X5: the copy of a packet that node number i+1 of a path puts on the
    air carries the ttl less i+1, the largest of the original strength and
    the readings of the matching nodes so far, and the position of the
    last matching node so far (the original position when none matched):
    strengths accumulate by maximum, positions by last writer. *)
Theorem copy_carries_max_strength_and_last_position
    (path : list Helpers) (p q : Packet) (i : nat) :
  lineage path p !! i = Some q ->
  let seen := matching (signal_info p) (take (S i) path) in
  packet_life_counter q = packet_life_counter p - Z.of_nat (S i) /\
  signal_strength q =
    fold_right Z.max (signal_strength p) (map reading seen) /\
  position_data q =
    match last seen with
    | Some h => update_compressed_position h
    | None => position_data p
    end.
Proof.
  cbv zeta. revert p q i.
  induction path as [| h path IH]; intros p q i; cbn [lineage];
    [discriminate |].
  destruct (hop h p) as [q0 |] eqn:Hq0; [| discriminate].
  pose proof (hop_some h p _ Hq0) as [Httl _].
  pose proof (hop_strength h p _ Hq0) as (Hs & Hpos & Hinfo).
  unfold matching in *.
  rewrite firstn_cons. cbn [List.filter].
  destruct i as [| i]; cbn [lookup list_lookup].
  - intros [= <-]. rewrite take_0. cbn [List.filter].
    destruct (signal_matches h (signal_info p)); cbn; repeat split;
      try assumption; lia.
  - intros Hq. destruct (IH q0 q i Hq) as (Ht & Hs' & Hpos').
    rewrite Hinfo in Hs', Hpos'. split; [lia |].
    destruct (signal_matches h (signal_info p)).
    + split.
      * rewrite Hs', Hs, fold_max_shift. reflexivity.
      * rewrite Hpos', Hpos.
        destruct (List.filter _ (take (S i) path)) as [| h1 l];
          [reflexivity |].
        rewrite last_cons_cons.
        destruct (last (h1 :: l)) eqn:Hlast; [reflexivity |].
        apply last_None in Hlast. discriminate Hlast.
    + split; [now rewrite Hs', Hs | now rewrite Hpos', Hpos].
Qed.

Lemma copy_carries_max_strength_and_last_position_witness :
  lineage [Scenario.node_B; Scenario.node_A] Scenario.emitted !! 1%nat
    = Some (set_packet_life_counter (fuse Scenario.node_A
              (fuse Scenario.node_B Scenario.emitted)) 3) /\
  position_data (set_packet_life_counter (fuse Scenario.node_A
              (fuse Scenario.node_B Scenario.emitted)) 3)
    = update_compressed_position Scenario.node_A.
Proof.
  split; [reflexivity |].
  apply (copy_carries_max_strength_and_last_position
           [Scenario.node_B; Scenario.node_A] Scenario.emitted _ 1).
  reflexivity.
Defined.

(** X6: when no node on the path has a matching observation the packet is
    forwarded unchanged: every copy on the air is the packet as it arrived,
    but for the ttl. *)
Theorem unmatched_packet_is_forwarded_unchanged
    (path : list Helpers) (p : Packet) :
  matching (signal_info p) path = [] ->
  Forall (fun q => q = set_packet_life_counter p (packet_life_counter q))
         (lineage path p).
Proof.
  revert p. induction path as [| h path IH]; intros p Hnone; cbn [lineage];
    [constructor |].
  unfold matching in Hnone. cbn [List.filter] in Hnone.
  destruct (signal_matches h (signal_info p)) eqn:Hm; [discriminate |].
  destruct (Z.lt_ge_cases 1 (packet_life_counter p)) as [Hp | Hp].
  - rewrite hop_forward, Hm by exact Hp.
    constructor; [reflexivity |].
    eapply List.Forall_impl; [| apply IH; exact Hnone].
    cbn. intros q ->. reflexivity.
  - rewrite hop_deliver by exact Hp. constructor.
Qed.

Lemma unmatched_packet_is_forwarded_unchanged_witness :
  matching (signal_info Scenario.emitted)
    [Bystander.node_C; Bystander.node_C] = [] /\
  Forall (fun q => q = set_packet_life_counter Scenario.emitted
                         (packet_life_counter q))
         (lineage [Bystander.node_C; Bystander.node_C] Scenario.emitted).
Proof.
  split; [reflexivity |].
  apply (unmatched_packet_is_forwarded_unchanged
           [Bystander.node_C; Bystander.node_C] Scenario.emitted).
  reflexivity.
Defined.

(** X7: a second fusion of a packet at a node whose readings have not
    changed since the first -- the same RSSI reading and the same position
    -- changes nothing.  The readings are taken anew at every fusion, so
    this is a condition: with a changed reading or position the second
    fusion does change the packet. *)
Theorem fuse_again_with_unchanged_readings_changes_nothing
    (h h' : Helpers) (p : Packet) :
  reading h' = reading h ->
  update_compressed_position h' = update_compressed_position h ->
  fuse h' (fuse h p) = fuse h p.
Proof.
  unfold reading. intros Hreading Hposition.
  unfold fuse. cbn. rewrite Hreading, Hposition. f_equal. lia.
Qed.

Lemma fuse_again_with_unchanged_readings_changes_nothing_witness :
  reading Bystander.node_B_later = reading Scenario.node_B /\
  update_compressed_position Bystander.node_B_later =
    update_compressed_position Scenario.node_B /\
  fuse Bystander.node_B_later (fuse Scenario.node_B Scenario.emitted) =
    fuse Scenario.node_B Scenario.emitted.
Proof.
  split; [reflexivity |]. split; [reflexivity |].
  apply (fuse_again_with_unchanged_readings_changes_nothing
           Scenario.node_B Bystander.node_B_later Scenario.emitted);
    reflexivity.
Defined.

Example fuse_again_with_changed_readings :
  fuse Bystander.node_B_moved (fuse Scenario.node_B Scenario.emitted) <>
  fuse Scenario.node_B Scenario.emitted.
Proof. vm_compute. discriminate. Qed.

(** X8: every copy on the air of a packet a node created keeps what its
    creator wrote: protocol version 1, the creator's NODE_ID and packet id,
    the broadcast destination 0xFFFF, a signal-info length field equal to
    the length of the signal info carried, a series length field equal to
    the length of the first reading of the time series and a series equal
    to the second reading; its ttl is positive and below 5.  The series
    length field thus announces the series carried exactly when the two
    readings compress to the same length. *)
Theorem created_packet_stays_well_formed_on_air
    (creator : Helpers) (path : list Helpers) :
  Forall (fun q =>
            protocol_version q = 1 /\
            packet_id q = generate_id creator /\
            source_node_id q = NODE_ID creator /\
            dest_node_id q = 0xFFFF /\
            signal_info_length q = Z.of_nat (length (signal_info q)) /\
            strength_over_time_length q =
              Z.of_nat (length (compress_rssi_timeseries creator
                                  (get_rssi_timeseries creator))) /\
            strength_over_time q =
              compress_rssi_timeseries creator
                (get_rssi_timeseries_again creator) /\
            0 < packet_life_counter q < 5)
         (lineage path (create_packet creator)).
Proof.
  pose proof (lineage_unassigned path (create_packet creator)) as Hsame.
  pose proof (proj1 (lineage_counters path (create_packet creator))) as Httl.
  rewrite List.Forall_forall in Hsame, Httl. apply List.Forall_forall.
  intros q Hq. specialize (Hsame q Hq). specialize (Httl q Hq).
  pose proof (f_equal protocol_version Hsame) as Hv.
  pose proof (f_equal packet_id Hsame) as Hid.
  pose proof (f_equal source_node_id Hsame) as Hsrc.
  pose proof (f_equal dest_node_id Hsame) as Hdst.
  pose proof (f_equal signal_info_length Hsame) as Hil.
  pose proof (f_equal signal_info Hsame) as Hi.
  pose proof (f_equal strength_over_time_length Hsame) as Hsl.
  pose proof (f_equal strength_over_time Hsame) as Hso.
  cbn in Hv, Hid, Hsrc, Hdst, Hil, Hi, Hsl, Hso, Httl.
  repeat split; try assumption; try lia; congruence.
Qed.

(** A packet created while the series grew between the two readings
    announces one sample and carries two, on every copy. *)
Example series_length_field_can_disagree :
  map (fun q => (strength_over_time_length q, strength_over_time q))
      (lineage [Scenario.node_B] (create_packet Bystander.node_D))
  = [(1, [78; 79])].
Proof. reflexivity. Qed.

End FloodFacts.

(** * Properties of the dashboard views and handlers *)

Section ViewFacts.
Import Dashboard View.
Local Open Scope string_scope.

Lemma selected_all (s : SignalData) : selected "all" s = true.
Proof. reflexivity. Qed.

Lemma selected_type (t : string) (s : SignalData) :
  t <> "all" -> selected t s = String.eqb (type s) t.
Proof.
  intros Ht. unfold selected.
  destruct (String.eqb_spec t "all"); [contradiction | reflexivity].
Qed.

Lemma filter_all {A} (f : A -> bool) (l : list A) :
  (forall x, f x = true) -> List.filter f l = l.
Proof.
  intros Hf. induction l as [| x l IH]; cbn; [reflexivity |].
  now rewrite Hf, IH.
Qed.

Lemma fold_left_append {A B} (f : A -> B) (l : list A) (acc : list B) :
  fold_left (fun items x => (items ++ [f x])%list) l acc
  = (acc ++ map f l)%list.
Proof.
  revert acc. induction l as [| x l IH]; intros acc; cbn.
  - now rewrite app_nil_r.
  - rewrite IH. now rewrite <- app_assoc.
Qed.

(** X9: the signal list is rebuilt, not extended: whatever it held before,
    after [updateSignalList] it holds one item per signal of the selected
    type, in the order of the data -- all signals under "all" -- so that
    updating twice shows what updating once shows. *)
Theorem updateSignalList_rebuilds_list
    (data : list SignalData) (t : string) (old : list string) :
  updateSignalList data t old = map item_text (List.filter (selected t) data) /\
  updateSignalList data "all" old = map item_text data /\
  updateSignalList data t (updateSignalList data t old) =
    updateSignalList data t old /\
  (length (updateSignalList data t old) <= length data)%nat.
Proof.
  assert (forall t' old', updateSignalList data t' old' =
                          map item_text (List.filter (selected t') data))
    as Heq.
  { intros t' old'. unfold updateSignalList. cbv zeta.
    now rewrite fold_left_append. }
  split; [apply Heq |]. split; [| split].
  - rewrite Heq. now rewrite (filter_all _ _ selected_all).
  - now rewrite !Heq.
  - rewrite Heq, length_map. apply List.filter_length_le.
Qed.

(** X10: the number on each card of [SignalStats] is the number of rows the
    application shows when that card's type is selected, and under "all"
    the application shows every signal; with the data undefined it shows
    none. *)
Theorem cards_count_the_rows_of_their_type (data : list SignalData) :
  SignalStats (Some data) =
    mkCards (Number (length (filteredData (Some data) "Bluetooth")))
            (Number (length (filteredData (Some data) "Wi-Fi")))
            (Number (length (filteredData (Some data) "ADS-B"))) /\
  filteredData (Some data) "all" = data /\
  (forall t, filteredData None t = []).
Proof.
  split; [| split; [apply (filter_all _ _ selected_all) | reflexivity]].
  unfold SignalStats, filter_length, filteredData.
  rewrite !or_else_number.
  repeat f_equal; apply (f_equal (@length SignalData));
    apply List.filter_ext; intros s; now rewrite selected_type.
Qed.

(** The signals whose type is none of the three the cards name. *)
Lemma three_way_count (data : list SignalData) :
  (count_occ string_dec (map type data) "Bluetooth" +
   count_occ string_dec (map type data) "Wi-Fi" +
   count_occ string_dec (map type data) "ADS-B" +
   length (List.filter
             (fun s => negb (String.eqb (type s) "Bluetooth" ||
                             String.eqb (type s) "Wi-Fi" ||
                             String.eqb (type s) "ADS-B")) data)
   = length data)%nat.
Proof.
  induction data as [| s data IH]; [reflexivity |].
  cbn [map count_occ List.filter length].
  destruct (string_dec (type s) "Bluetooth") as [Hb | Hb];
    destruct (string_dec (type s) "Wi-Fi") as [Hw | Hw];
    destruct (string_dec (type s) "ADS-B") as [Ha | Ha];
    try (rewrite Hb in Hw; discriminate Hw);
    try (rewrite Hb in Ha; discriminate Ha);
    try (rewrite Hw in Ha; discriminate Ha);
    repeat match goal with
           | H : type s = _ |- _ => rewrite H
           | H : type s <> ?t |- _ =>
               rewrite (proj2 (String.eqb_neq (type s) t) H); clear H
           end;
    cbn [String.eqb Ascii.eqb Bool.eqb orb negb length]; lia.
Qed.

(** X11: the three cards never count a signal twice and count no signal of
    any other type: the three numbers and the number of signals whose type
    is none of Bluetooth, Wi-Fi and ADS-B add up to the number of
    signals. *)
Theorem cards_partition_the_signals (data : list SignalData) :
  exists b w a : nat,
    SignalStats (Some data) = mkCards (Number b) (Number w) (Number a) /\
    (b + w + a +
     length (List.filter
               (fun s => negb (String.eqb (type s) "Bluetooth" ||
                               String.eqb (type s) "Wi-Fi" ||
                               String.eqb (type s) "ADS-B")) data)
     = length data)%nat.
Proof.
  exists (count_occ string_dec (map type data) "Bluetooth"),
         (count_occ string_dec (map type data) "Wi-Fi"),
         (count_occ string_dec (map type data) "ADS-B").
  split; [| apply three_way_count].
  unfold SignalStats, filter_length.
  now rewrite !or_else_number, !length_filter_type.
Qed.

End ViewFacts.

Section HandlersFacts.
Import Dashboard View Handlers.
Local Open Scope string_scope.

Lemma AppJs_updateSignalStats_page (data : list SignalData) (pg : Page) :
  page (AppJs.updateSignalStats data pg) =
  Some (mkPage (show_number (length data))
          match last data with
          | None => "N/A"
          | Some s => timestamp s
          end).
Proof.
  destruct data as [| a l]; [reflexivity |].
  assert (a :: l <> []) as Hne by discriminate.
  destruct (element_at_length_minus_one (a :: l) Hne) as [Hlast _].
  unfold AppJs.updateSignalStats. cbv zeta. rewrite Hlast.
  destruct (Z.gtb_spec (Z.of_nat (length (a :: l))) 0) as [_ | Hle];
    [| cbn [length] in Hle; lia].
  destruct (last (a :: l)) as [s |] eqn:Hs; [reflexivity |].
  apply last_None in Hs. discriminate Hs.
Qed.

Lemma updateUI_next (a : App) (drawn : bool) :
  updateUI a drawn =
  if drawn then
    Next (mkApp (isCollecting a) (signalData a) (selectedSignalType a)
            (shown_stats a) (shown_items a) (requests a) (timers a))
  else Uncaught.
Proof.
  unfold updateUI. rewrite AppJs_updateSignalStats_page.
  unfold updateSignalList. cbv zeta. now rewrite fold_left_append.
Qed.

(** Case analysis on one handler run that ended normally. *)
Ltac step_cases H :=
  match type of H with
  | step ?a ?e = Next ?a' =>
      destruct a as [collecting0 data0 type0 page0 list0 pending0 waiting0];
      destruct e as [| | drawn0 | null0 | value0 drawn0
                     | response0 drawn0 | |];
      cbn [step requests timers] in H;
      try (destruct pending0; [discriminate H |]);
      try (destruct waiting0; [discriminate H |]);
      try (destruct response0; [| discriminate H]);
      rewrite ?updateUI_next in H;
      try (destruct drawn0; cbv beta iota in H; [| discriminate H]);
      try (destruct null0; [discriminate H |]);
      unfold fetchData in H;
      try destruct collecting0;
      cbn [isCollecting signalData selectedSignalType stats signalList
           requests timers negb] in H;
      injection H as <-
  end.

(** A handler leaves the normal course only on an event that is not
    calm: the statistics and list code of the page does not throw on a
    list of signal records. *)
Lemma step_calm (a : App) (e : Event) :
  calm e = true -> step a e <> Uncaught /\ step a e <> NotFollowed.
Proof.
  destruct e as [| | drawn | null_response | value drawn
                 | [data |] drawn | |];
    cbn [calm step]; intros Hcalm; rewrite ?updateUI_next;
    try subst drawn; try discriminate Hcalm;
    try (split; discriminate).
  - destruct null_response; [discriminate Hcalm | split; discriminate].
  - destruct (requests a); [split; discriminate |].
    rewrite updateUI_next. split; discriminate.
  - destruct (requests a); split; discriminate.
  - destruct (timers a); split; discriminate.
Qed.

Lemma step_in_step (html : Page) (items : list string) (a a' : App)
    (e : Event) :
  step a e = Next a' -> in_step html items a -> in_step html items a'.
Proof.
  intros Hstep Hin. unfold in_step in *.
  step_cases Hstep; cbn in *; try exact Hin; left; split; reflexivity.
Qed.

(** X12: as long as the handlers run their normal course, the statistics
    and the signal list are never stale.  After any sequence of events
    from the page as loaded that every handler completed, either no
    handler has written them yet (they are as in the HTML, with no data
    held and "all" selected), or they show exactly the data and the type
    the page holds: the count, the last timestamp or N/A, and one item per
    signal of the selected type.  And a run leaves that course only on an
    event where something outside the script fails -- a response that is
    not a list of signal records, a chart or map call that throws, a null
    save response: on lists of signal records the statistics and list code
    itself does not throw. *)
Theorem display_never_stale
    (html : Page) (items : list string) (events : list Event) :
  match run (loaded html items) events with
  | Next a =>
      (stats a = shown_stats a /\ signalList a = shown_items a) \/
      (stats a = html /\ signalList a = items /\
       signalData a = [] /\ selectedSignalType a = "all")
  | Uncaught | NotFollowed => forallb calm events = false
  | NotEnabled => True
  end.
Proof.
  assert (in_step html items (loaded html items)) as Hinit
    by (right; repeat split).
  revert Hinit. generalize (loaded html items) as a.
  induction events as [| e events IH]; intros a Hin; cbn [run forallb].
  - exact Hin.
  - destruct (calm e) eqn:Hcalm.
    + destruct (step_calm a e Hcalm) as [Hthrow Hleft].
      destruct (step a e) as [a' | | |] eqn:Hstep;
        [| contradiction | contradiction | exact I].
      cbn [andb]. apply IH. eapply step_in_step; eassumption.
    + cbn [andb]. destruct (step a e) as [a' | | |] eqn:Hstep;
        [| reflexivity | reflexivity | exact I].
      specialize (IH a' (step_in_step html items a a' e Hstep Hin)).
      destruct (run a' events); try exact IH; reflexivity.
Qed.

Lemma count_cons (f : Event -> bool) (e : Event) (events : list Event) :
  count f (e :: events) = ((if f e then 1 else 0) + count f events)%nat.
Proof. unfold count. cbn [List.filter]. now destruct (f e). Qed.

Lemma step_loops (a a' : App) (e : Event) :
  step a e = Next a' ->
  (loops a' <= loops a + (if is_start e then 1 else 0))%nat /\
  (is_stop e = false -> is_failure e = false ->
   isCollecting a = true \/ loops a = 0%nat ->
   loops a' = (loops a + (if is_start e then 1 else 0))%nat /\
   (isCollecting a' = true \/ loops a' = 0%nat)).
Proof.
  intros Hstep. unfold loops.
  step_cases Hstep; cbn; (split; [lia |]); intros Hstop Hfail Hlive;
    try discriminate Hstop; try discriminate Hfail;
    try (split; [lia | tauto]);
    try (split; [lia | left; reflexivity]);
    destruct Hlive as [Hlive | Hlive]; try discriminate Hlive; lia.
Qed.

Lemma run_loops (events : list Event) :
  forall a : App,
    match run a events with
    | Next a' =>
        (loops a' <= loops a + count is_start events)%nat /\
        (count is_stop events = 0%nat ->
         count is_failure events = 0%nat ->
         isCollecting a = true \/ loops a = 0%nat ->
         loops a' = (loops a + count is_start events)%nat)
    | _ => True
    end.
Proof.
  induction events as [| e events IH]; intros a; cbn [run].
  - unfold count. cbn. split; [lia |]. intros _ _ _. lia.
  - destruct (step a e) as [a1 | | |] eqn:Hstep; try exact I.
    specialize (IH a1). destruct (run a1 events) as [a' | | |]; try exact IH.
    destruct IH as [Hle Heq].
    destruct (step_loops a a1 e Hstep) as [Hle1 Heq1].
    rewrite !count_cons. split; [lia |].
    intros Hstops Hfails Hlive.
    destruct (is_stop e) eqn:Hstop; [discriminate Hstops |].
    destruct (is_failure e) eqn:Hfail; [discriminate Hfails |].
    destruct (Heq1 eq_refl eq_refl Hlive) as [Hone Hlive1].
    rewrite Heq by (cbn in Hstops, Hfails; assumption). lia.
Qed.

(** X13: as long as the handlers run their normal course, every
    acknowledged Start begins a polling loop of its own and nothing else
    does: after any sequence of events from the page as loaded that every
    handler completed, the number of loops alive (awaiting a response or a
    timer) is at most the number of Starts acknowledged, and it is exactly
    that number as long as no Stop was acknowledged and no request for
    data failed -- a second Start while collecting leaves two loops
    polling side by side.  (A handler that throws before its [setTimeout]
    ends its loop; such runs are not covered.) *)
Theorem each_start_begins_a_polling_loop
    (html : Page) (items : list string) (events : list Event) :
  match run (loaded html items) events with
  | Next a =>
      (loops a <= count is_start events)%nat /\
      (count is_stop events = 0%nat -> count is_failure events = 0%nat ->
       loops a = count is_start events)
  | _ => True
  end.
Proof.
  pose proof (run_loops events (loaded html items)) as H.
  destruct (run (loaded html items) events) as [a | | |]; try exact H.
  destruct H as [Hle Heq]. split; [exact Hle |].
  intros Hstops Hfails.
  apply Heq; [exact Hstops | exact Hfails | right; reflexivity].
Qed.

Lemma step_stopped (a a' : App) (e : Event) :
  step a e = Next a' ->
  isCollecting a = false -> is_start e = false ->
  isCollecting a' = false /\
  (requests a' + (if is_data e then 1 else 0) +
   (if is_failure e then 1 else 0) = requests a)%nat /\
  (timers a' + (if is_timer e then 1 else 0) =
   timers a + (if is_data e then 1 else 0))%nat.
Proof.
  intros Hstep Hoff Hstart.
  step_cases Hstep; cbn in *; try discriminate; repeat split; lia.
Qed.

(** X14: while the page is not collecting no request for data goes out.
    From a state that is not collecting, over any sequence of events
    without an acknowledged Start, the page stays not collecting, every
    response that arrives or fails uses up one awaited request and none is
    added, and every timer that fires ends its loop: polling dies out with
    the timers already set. *)
Theorem no_request_while_not_collecting
    (a a' : App) (events : list Event) :
  isCollecting a = false ->
  count is_start events = 0%nat ->
  run a events = Next a' ->
  isCollecting a' = false /\
  (requests a' + count is_data events + count is_failure events
   = requests a)%nat /\
  (timers a' + count is_timer events = timers a + count is_data events)%nat.
Proof.
  revert a. induction events as [| e events IH]; intros a Hoff Hstarts Hrun.
  - cbn in Hrun. injection Hrun as <-. unfold count. cbn.
    split; [exact Hoff | split; lia].
  - cbn [run] in Hrun. rewrite count_cons in Hstarts.
    destruct (is_start e) eqn:Hstart; [discriminate Hstarts |].
    destruct (step a e) as [a1 | | |] eqn:Hstep; try discriminate Hrun.
    destruct (step_stopped a a1 e Hstep Hoff Hstart) as (Hoff1 & Hreq & Htim).
    destruct (IH a1 Hoff1 Hstarts Hrun) as (Hoff' & Hreq' & Htim').
    rewrite !count_cons. repeat split; [exact Hoff' | lia | lia].
Qed.

Lemma no_request_while_not_collecting_witness :
  let a := mkApp false [] "all" (mkPage "3" "10:00") [] 1 1 in
  let events := [TimerFired; DataArrived (Signals []) true; TimerFired] in
  isCollecting a = false /\
  count is_start events = 0%nat /\
  run a events = Next (mkApp false [] "all" (mkPage "0" "N/A") [] 0 0) /\
  (0 + count is_data events + count is_failure events = requests a)%nat.
Proof.
  cbv zeta. split; [reflexivity |]. split; [reflexivity |].
  split; [reflexivity |].
  apply (no_request_while_not_collecting
           (mkApp false [] "all" (mkPage "3" "10:00") [] 1 1)
           (mkApp false [] "all" (mkPage "0" "N/A") [] 0 0)
           [TimerFired; DataArrived (Signals []) true; TimerFired]);
    reflexivity.
Defined.

(** One Start, then a response that is not a list of signal records, or a
    chart call that throws: the run leaves the normal course and the
    callback's [setTimeout] is not reached. *)
Example response_that_is_not_signals_is_not_followed :
  run (loaded (mkPage "0" "N/A") []) [StartAcked; DataArrived Other true]
  = NotFollowed.
Proof. reflexivity. Qed.

Example chart_failure_ends_the_callback :
  run (loaded (mkPage "0" "N/A") [])
      [StartAcked; DataArrived (Signals []) false]
  = Uncaught.
Proof. reflexivity. Qed.

Example second_start_doubles_the_polling :
  match run (loaded (mkPage "0" "N/A") [])
          [StartAcked; StartAcked; DataArrived (Signals []) true;
           DataArrived (Signals []) true; TimerFired] with
  | Next a => loops a
  | _ => 0%nat
  end = 2%nat.
Proof. reflexivity. Qed.

End HandlersFacts.

Section HandlersDataFacts.
Import Dashboard HandlersData.
Local Open Scope string_scope.






End HandlersDataFacts.

Section ChartFacts.
Import Dashboard Chart.
Local Open Scope string_scope.

Lemma count_signal_holds (inherited : string -> bool)
    (counts : gmap string nat) (c : string -> nat) (s : SignalData) :
  inherited (type s) = false ->
  holds counts c ->
  exists counts',
    count_signal inherited (Some counts) s = Some counts' /\
    holds counts'
      (fun t => if string_dec (type s) t then S (c t) else c t).
Proof.
  intros Hown Hholds. unfold count_signal. rewrite Hown.
  eexists; split; [reflexivity |]. intros t.
  destruct (string_dec (type s) t) as [<- | Hne].
  - rewrite lookup_insert_eq. rewrite (Hholds (type s)).
    now destruct (Nat.eqb_spec (c (type s)) 0) as [-> | _].
  - rewrite lookup_insert_ne by exact Hne. apply Hholds.
Qed.

Lemma fold_count_signal_holds (inherited : string -> bool)
    (data : list SignalData) :
  forall (counts : gmap string nat) (c : string -> nat),
    forallb (fun s => negb (inherited (type s))) data = true ->
    holds counts c ->
    exists counts',
      fold_left (count_signal inherited) data (Some counts) = Some counts' /\
      holds counts'
        (fun t => (count_occ string_dec (map type data) t + c t)%nat).
Proof.
  induction data as [| s data IH]; intros counts c Hown Hholds.
  - exists counts. split; [reflexivity | exact Hholds].
  - cbn [forallb] in Hown. apply andb_prop in Hown as [Hs Hrest].
    apply negb_true_iff in Hs.
    destruct (count_signal_holds inherited counts c s Hs Hholds)
      as (counts1 & Hstep & Hholds1).
    cbn [fold_left]. rewrite Hstep.
    destruct (IH counts1 _ Hrest Hholds1) as (counts' & Hfold & Hholds').
    exists counts'. split; [exact Hfold |].
    intros t. rewrite (Hholds' t). cbn [map count_occ].
    destruct (string_dec (type s) t); cbn;
      now rewrite ?Nat.add_succ_r.
Qed.

(** X16: provided no signal's type is a name the empty object inherits,
    the object [updateChart] builds has, for every type, the number of
    signals of that type as its value, and no entry at all for a type no
    signal has: the chart shows one bar per type present, of the right
    height. *)
Theorem signalCounts_counts_each_type
    (inherited : string -> bool) (data : list SignalData) :
  forallb (fun s => negb (inherited (type s))) data = true ->
  exists counts,
    signalCounts inherited data = Some counts /\
    forall t,
      counts !! t =
      if Nat.eqb (count_occ string_dec (map type data) t) 0 then None
      else Some (count_occ string_dec (map type data) t).
Proof.
  intros Hown.
  destruct (fold_count_signal_holds inherited data ∅ (fun _ => 0%nat) Hown)
    as (counts & Hfold & Hholds).
  { intros t. apply lookup_empty. }
  exists counts. split; [exact Hfold |].
  intros t. rewrite (Hholds t). now rewrite Nat.add_0_r.
Qed.

Lemma signalCounts_counts_each_type_witness :
  let data :=
    [mkSignalData "10:00" "Wi-Fi" "aa:bb" "-40";
     mkSignalData "10:05" "Bluetooth" "cc:dd" "-60";
     mkSignalData "10:06" "Wi-Fi" "ee:ff" "-70"] in
  let inherited := fun t => String.eqb t "constructor" in
  forallb (fun s => negb (inherited (type s))) data = true /\
  exists counts,
    signalCounts inherited data = Some counts /\
    forall t,
      counts !! t =
      if Nat.eqb (count_occ string_dec (map type data) t) 0 then None
      else Some (count_occ string_dec (map type data) t).
Proof.
  cbv zeta. split; [reflexivity |].
  apply (signalCounts_counts_each_type
           (fun t => String.eqb t "constructor")).
  reflexivity.
Defined.

End ChartFacts.
